(** * Verification of the SSE stream decoder of [src/lib/patch-langgraph-client.ts]

    The development embeds the three pieces of the streaming client:
    - [BytesLineDecoder]: byte chunks to logical lines;
    - [SafeSSEDecoder]: logical lines to decoded server-sent events;
    - [getRunMetadataFromResponse] and the patched [runs.stream] generator.
    - [AssistantTurn] and [formatDuration] of
      [src/components/thread/messages], which group and label what the
      stream delivered.

    A [Uint8Array] is a [list byte]; a JavaScript string is a [string].
    The closures' mutable variables become records threaded through
    [transform] and [flush], and [controller.enqueue] becomes the list of
    values returned next to the new state. *)

From Stdlib Require Import Strings.Byte Strings.Ascii Strings.String.
From Stdlib Require Import List Bool Arith Lia ZArith.
From Stdlib Require Import Numbers.DecimalString Numbers.DecimalZ.
Import ListNotations.

Local Open Scope list_scope.

(** ** Byte constants (lines 4-9) *)

Definition CR : byte := x0d.
Definition LF : byte := x0a.
Definition NULL : byte := x00.
Definition COLON : byte := x3a.
Definition SPACE : byte := x20.
Definition TRAILING_NEWLINE : list byte := [CR; LF].

(** [Array.prototype.includes] on a byte array. *)
Definition includes (l : list byte) (b : byte) : bool :=
  existsb (Byte.eqb b) l.

(** [text.at(-1)]: the last byte, [None] for [undefined]. *)
Fixpoint at_last (text : list byte) : option byte :=
  match text with
  | [] => None
  | [b] => Some b
  | _ :: rest => at_last rest
  end.

(** [x === b] where [x] may be [undefined]. *)
Definition opt_is (x : option byte) (b : byte) : bool :=
  match x with
  | Some c => Byte.eqb c b
  | None => false
  end.

(** [text.subarray(from, to)] and [text.subarray(from)] for in-range,
    non-negative indices. *)
Definition subarray (text : list byte) (from to : nat) : list byte :=
  firstn (to - from) (skipn from text).

Definition subarray_from (text : list byte) (from : nat) : list byte :=
  skipn from text.

(** [text.subarray(0, -1)]: everything but the last byte. *)
Definition drop_last (text : list byte) : list byte :=
  removelast text.

(** [joinArrays] (lines 11-20): the arrays laid out one after another in
    a fresh array of the total length. *)
Fixpoint joinArrays (data : list (list byte)) : list byte :=
  match data with
  | [] => []
  | c :: rest => c ++ joinArrays rest
  end.

(** ** BytesLineDecoder (lines 32-88) *)

Module BytesLineDecoder.

(** The closure variables [buffer] and [trailingCr]. *)
Record state := mk {
  buffer : list (list byte);
  trailingCr : bool
}.

(** [start()] *)
Definition start : state := {| buffer := []; trailingCr := false |}.

(** The accumulator of the [reduce] call: [{ lines, from }]. *)
Record acc := mkAcc {
  lines : list (list byte);
  from : nat
}.

(** The callback given to [text.reduce] (lines 54-64); [text] and
    [lastIdx] are captured from the enclosing scope. *)
Definition reducer (text : list byte) (lastIdx : nat)
           (a : acc) (cur : byte) (idx : nat) : acc :=
  if idx <? from a then a
  else
    let a1 :=
      if Byte.eqb cur CR || Byte.eqb cur LF then
        let pushed := lines a ++ [subarray text (from a) idx] in
        if Byte.eqb cur CR && opt_is (nth_error text (idx + 1)) LF
        then {| lines := pushed; from := idx + 2 |}
        else {| lines := pushed; from := idx + 1 |}
      else a in
    if (idx =? lastIdx) && (from a1 <=? lastIdx)
    then {| lines := lines a1 ++ [subarray_from text (from a1)];
            from := from a1 |}
    else a1.

(** [Array.prototype.reduce] with the element index, started at [idx]. *)
Fixpoint reduce_from (f : acc -> byte -> nat -> acc)
         (l : list byte) (idx : nat) (a : acc) : acc :=
  match l with
  | [] => a
  | cur :: rest => reduce_from f rest (S idx) (f a cur idx)
  end.

(** Lines 52-69: the lines of a non-empty [text]. *)
Definition scan (text : list byte) : list (list byte) :=
  let lastIdx := length text - 1 in
  lines (reduce_from (reducer text lastIdx) text 0
                     {| lines := []; from := 0 |}).

(** [lines[0] = v]: assignment to the first slot of an array. *)
Definition set_first (v : list byte) (lines : list (list byte))
  : list (list byte) :=
  match lines with
  | [] => [v]
  | _ :: rest => v :: rest
  end.

(** [transform(chunk, controller)] (lines 40-83): the new state and the
    lines enqueued, in order. *)
Definition transform (s : state) (chunk : list byte)
  : state * list (list byte) :=
  let text := chunk in
  let text := if trailingCr s then joinArrays [[CR]; text] else text in
  let tcr := false in
  let ends_cr := (0 <? length text) && opt_is (at_last text) CR in
  let tcr := if ends_cr then true else tcr in
  let text := if ends_cr then drop_last text else text in
  if length text =? 0 then ({| buffer := buffer s; trailingCr := tcr |}, [])
  else
    let trailingNewline :=
      match at_last text with
      | Some b => includes TRAILING_NEWLINE b
      | None => false
      end in
    let lines := scan text in
    (* [lines] is not empty here and [lines[0]] is its head *)
    if (length lines =? 1) && negb trailingNewline
    then ({| buffer := buffer s ++ [hd [] lines]; trailingCr := tcr |}, [])
    else
      let '(buffer1, lines1) :=
        if 0 <? length (buffer s)
        then ([], set_first (joinArrays (buffer s ++ [hd [] lines])) lines)
        else (buffer s, lines) in
      let '(buffer2, lines2) :=
        if negb trailingNewline
        then if 0 <? length lines1
             then ([last lines1 []], removelast lines1)
             else (buffer1, lines1)
        else (buffer1, lines1) in
      ({| buffer := buffer2; trailingCr := tcr |}, lines2).

(** [flush(controller)] (lines 84-86). *)
Definition flush (s : state) : list (list byte) :=
  if 0 <? length (buffer s) then [joinArrays (buffer s)] else [].

(** Feeding chunks one after another: the final state and everything
    enqueued so far. *)
Fixpoint feed (s : state) (chunks : list (list byte))
  : state * list (list byte) :=
  match chunks with
  | [] => (s, [])
  | c :: rest =>
      let (s1, out1) := transform s c in
      let (s2, out2) := feed s1 rest in
      (s2, out1 ++ out2)
  end.

(** A whole stream through the [TransformStream]: [start], one
    [transform] per chunk, then [flush]. *)
Definition run (chunks : list (list byte)) : list (list byte) :=
  let (s, out) := feed start chunks in
  out ++ flush s.

End BytesLineDecoder.

(** ** The platform: [TextDecoder], [JSON.parse] and [Number.parseInt]

    These are functions of the JavaScript runtime, not of the repository.
    The decoder is verified for every runtime that provides them. *)

Class Platform := {
  (** the values [JSON.parse] returns *)
  JSON : Type;
  (** the JSON value [null] *)
  JNull : JSON;
  (** [new TextDecoder().decode(bytes)]; it never throws *)
  decode : list byte -> string;
  (** [JSON.parse(text)]; [None] when it throws a [SyntaxError] *)
  JSON_parse : string -> option JSON;
  (** [Number.parseInt(text, 10)]; [None] for [NaN] *)
  parseInt10 : string -> option Z
}.

(** [a.indexOf(b)]; [None] for [-1]. *)
Fixpoint indexOf (a : list byte) (b : byte) : option nat :=
  match a with
  | [] => None
  | c :: rest =>
      if Byte.eqb c b then Some 0
      else match indexOf rest b with
           | Some i => Some (S i)
           | None => None
           end
  end.

(** Truthiness of a JavaScript string: [!s] is [true] exactly for [""]. *)
Definition falsy (s : string) : bool := String.eqb s EmptyString.

(** [s || undefined] *)
Definition or_undefined (s : string) : option string :=
  if falsy s then None else Some s.

(** ** SafeSSEDecoder (lines 90-143) *)

Module SafeSSEDecoder.
Section WithPlatform.
Context {P : Platform}.

(** The closure variables [event], [data], [lastEventId], [retry]. *)
Record state := mk {
  event : string;
  data : list (list byte);
  lastEventId : string;
  retry : option Z
}.

Definition initial : state :=
  {| event := EmptyString; data := []; lastEventId := EmptyString;
     retry := None |}.

(** The object enqueued: [{ id, event, data }]. *)
Record SSEEvent := mkEvent {
  sse_id : option string;
  sse_event : string;
  sse_data : JSON
}.

(** [decodeArraysToJson] (lines 22-30): [None] is [undefined]. *)
Definition decodeArraysToJson (data : list (list byte)) : option JSON :=
  match JSON_parse (decode (joinArrays data)) with
  | Some v => Some v
  | None => None (* catch (e) *)
  end.

(** [data.length ? decodeArraysToJson(decoder, data) : null] *)
Definition jsonData (s : state) : option JSON :=
  if 0 <? length (data s) then decodeArraysToJson (data s)
  else Some JNull.

(** Lines 100-109 and 132-139: the event enqueued, if any. *)
Definition build (s : state) : list SSEEvent :=
  match jsonData s with
  | Some j =>
      [ {| sse_id := or_undefined (lastEventId s);
           sse_event := event s;
           sse_data := j |} ]
  | None => []
  end.

(** Lines 115-120: the decoded field name and the raw value of a
    non-empty line; [None] when the line is ignored. *)
Definition parse_field (chunk : list byte) : option (string * list byte) :=
  if opt_is (nth_error chunk 0) COLON then None
  else
    match indexOf chunk COLON with
    | None => None
    | Some sepIdx =>
        let fieldName := decode (subarray chunk 0 sepIdx) in
        let value := subarray_from chunk (sepIdx + 1) in
        let value :=
          if opt_is (nth_error value 0) SPACE
          then subarray_from value 1 else value in
        Some (fieldName, value)
    end.

(** Lines 121-128: the dispatch on the field name. *)
Definition set_field (s : state) (fieldName : string) (value : list byte)
  : state :=
  if String.eqb fieldName "event" then
    {| event := decode value; data := data s;
       lastEventId := lastEventId s; retry := retry s |}
  else if String.eqb fieldName "data" then
    {| event := event s; data := data s ++ [value];
       lastEventId := lastEventId s; retry := retry s |}
  else if String.eqb fieldName "id" then
    match indexOf value NULL with
    | None =>
        {| event := event s; data := data s;
           lastEventId := decode value; retry := retry s |}
    | Some _ => s
    end
  else if String.eqb fieldName "retry" then
    match parseInt10 (decode value) with
    | Some retryNum =>
        {| event := event s; data := data s;
           lastEventId := lastEventId s; retry := Some retryNum |}
    | None => s
    end
  else s.

(** [retry == null] *)
Definition is_null (r : option Z) : bool :=
  match r with
  | None => true
  | Some _ => false
  end.

(** [transform(chunk, controller)] (lines 97-129). *)
Definition transform (s : state) (chunk : list byte)
  : state * list SSEEvent :=
  if length chunk =? 0 then
    if falsy (event s) && (length (data s) =? 0)
       && falsy (lastEventId s) && is_null (retry s)
    then (s, [])
    else
      ({| event := EmptyString; data := [];
          lastEventId := lastEventId s; retry := None |},
       build s)
  else
    match parse_field chunk with
    | None => (s, [])
    | Some (fieldName, value) => (set_field s fieldName value, [])
    end.

(** [flush(controller)] (lines 130-141). *)
Definition flush (s : state) : list SSEEvent :=
  if negb (falsy (event s)) then build s else [].

(** Feeding lines one after another. *)
Fixpoint feed (s : state) (lines : list (list byte))
  : state * list SSEEvent :=
  match lines with
  | [] => (s, [])
  | l :: rest =>
      let (s1, out1) := transform s l in
      let (s2, out2) := feed s1 rest in
      (s2, out1 ++ out2)
  end.

(** A whole stream of lines, from a given accumulator: one [transform]
    per line, then [flush]. *)
Definition run_from (s : state) (lines : list (list byte))
  : list SSEEvent :=
  let (s', out) := feed s lines in
  out ++ flush s'.

Definition run (lines : list (list byte)) : list SSEEvent :=
  run_from initial lines.

End WithPlatform.
End SafeSSEDecoder.

(** ** The regular expression [REGEX_RUN_METADATA] (lines 145-146)

    A backtracking matcher for the fragment of JavaScript regular
    expressions the pattern is written in: literals, the greedy [.+],
    sequencing, the greedy optional group and named capture groups. *)

Module Regex.

Inductive regex :=
| Lit (s : string)                    (* literal characters *)
| DotPlus                             (* [.+] *)
| Seq (r1 r2 : regex)                 (* [r1 r2] *)
| Opt (r : regex)                     (* [r?] *)
| Group (r : regex)                   (* [(r)] *)
| Named (name : string) (r : regex).  (* [(?<name>r)] *)

(** [match.groups]: the named groups that took part in the match. *)
Definition groups := list (string * string).

Fixpoint lookup (name : string) (g : groups) : option string :=
  match g with
  | [] => None
  | (n, v) :: rest => if String.eqb n name then Some v else lookup name rest
  end.

(** The characters [.] does not match; a header value is a byte string,
    where these are the line feed and the carriage return. *)
Definition is_line_terminator (c : ascii) : bool :=
  Ascii.eqb c "010"%char || Ascii.eqb c "013"%char.

(** The rest of [s] after the literal [l], when [s] starts with it. *)
Fixpoint strip_prefix (l s : string) : option string :=
  match l, s with
  | EmptyString, _ => Some s
  | String a l', String b s' =>
      if Ascii.eqb a b then strip_prefix l' s' else None
  | String _ _, EmptyString => None
  end.

(** The first [n] characters of [s]. *)
Fixpoint take (n : nat) (s : string) : string :=
  match n, s with
  | S m, String c s' => String c (take m s')
  | _, _ => EmptyString
  end.

(** [.+]: one or more characters, the longest run first, giving
    characters back one at a time while the continuation fails. *)
Fixpoint dot_plus {R} (s : string) (k : string -> option R) : option R :=
  match s with
  | EmptyString => None
  | String c s' =>
      if is_line_terminator c then None
      else match dot_plus s' k with
           | Some r => Some r
           | None => k s'
           end
  end.

(** Matching [r] at the start of [s]; [k] matches what follows. *)
Fixpoint match_at (r : regex) (s : string) (g : groups)
         (k : string -> groups -> option groups) : option groups :=
  match r with
  | Lit l =>
      match strip_prefix l s with
      | Some s' => k s' g
      | None => None
      end
  | DotPlus => dot_plus s (fun s' => k s' g)
  | Seq r1 r2 => match_at r1 s g (fun s' g' => match_at r2 s' g' k)
  | Opt r1 =>
      match match_at r1 s g k with
      | Some res => Some res
      | None => k s g
      end
  | Group r1 => match_at r1 s g k
  | Named name r1 =>
      match_at r1 s g
        (fun s' g' =>
           k s' ((name, take (String.length s - String.length s') s) :: g'))
  end.

(** [r.exec(s)] without the [g] flag: the leftmost match. *)
Fixpoint exec (r : regex) (s : string) : option groups :=
  match match_at r s [] (fun _ g => Some g) with
  | Some g => Some g
  | None =>
      match s with
      | EmptyString => None
      | String _ s' => exec r s'
      end
  end.

End Regex.

(** [/(\/threads\/(?<thread_id>.+))?\/runs\/(?<run_id>.+)/] *)
Definition REGEX_RUN_METADATA : Regex.regex :=
  Regex.Seq
    (Regex.Opt
       (Regex.Group
          (Regex.Seq (Regex.Lit "/threads/")
                     (Regex.Named "thread_id" Regex.DotPlus))))
    (Regex.Seq (Regex.Lit "/runs/") (Regex.Named "run_id" Regex.DotPlus)).

(** ** getRunMetadataFromResponse (lines 148-157) *)

Record RunMetadata := mkRunMetadata {
  run_id : string;
  thread_id : option string
}.

(** The argument is [response.headers.get("Content-Location")], [None]
    for [null]. *)
Definition getRunMetadataFromResponse (contentLocation : option string)
  : option RunMetadata :=
  match contentLocation with
  | None => None
  | Some cl =>
      if falsy cl then None
      else
        match Regex.exec REGEX_RUN_METADATA cl with
        | None => None
        | Some g =>
            match Regex.lookup "run_id" g with
            | None => None
            | Some rid =>
                if falsy rid then None
                else
                  Some {| run_id := rid;
                          thread_id :=
                            match Regex.lookup "thread_id" g with
                            | Some t => or_undefined t
                            | None => None
                            end |}
            end
        end
  end.

(** ** The patched [runs.stream] generator (lines 167-235) *)

Module Driver.
Section WithPlatform.
Context {P : Platform}.

(** What a consumer of the generator observes, in order. *)
Inductive action :=
| RunCreated (m : RunMetadata)                (* [onRunCreated(m)] *)
| Yield (e : SafeSSEDecoder.SSEEvent).        (* [yield value] *)

(** The response as the generator uses it: the [Content-Location]
    header and the chunks of the body ([None]: no body). *)
Record Response := mkResponse {
  contentLocation : option string;
  body : option (list (list byte))
}.

(** Lines 215-222: the body, or an immediately closed stream, piped
    through the two decoders. *)
Definition decoded (r : Response) : list SafeSSEDecoder.SSEEvent :=
  let chunks := match body r with Some cs => cs | None => [] end in
  SafeSSEDecoder.run (BytesLineDecoder.run chunks).

(** Lines 212-231, run to completion; [hasOnRunCreated] tells whether
    the payload carries an [onRunCreated] callback. *)
Definition stream (hasOnRunCreated : bool) (r : Response) : list action :=
  let runMetadata := getRunMetadataFromResponse (contentLocation r) in
  let called :=
    match runMetadata with
    | Some m => if hasOnRunCreated then [RunCreated m] else []
    | None => []
    end in
  called ++ map Yield (decoded r).

(** The arguments of the calls of [onRunCreated], in order. *)
Definition calls (trace : list action) : list RunMetadata :=
  flat_map (fun a => match a with
                     | RunCreated m => [m]
                     | Yield _ => []
                     end) trace.

End WithPlatform.
End Driver.

(** ** A reference platform for running examples

    [decode] reads every byte as one character, which is what
    [TextDecoder] does on ASCII input; [JSON_parse] accepts the scalar
    JSON texts [null], [true], [false] and the integers, with
    surrounding white space, and is used on such texts and on texts that
    are not JSON at all. *)

Module Reference.

Inductive json :=
| Jnull
| Jbool (b : bool)
| Jnumber (n : Z).

Definition is_space (c : ascii) : bool :=
  Ascii.eqb c " "%char || Ascii.eqb c "009"%char
  || Ascii.eqb c "010"%char || Ascii.eqb c "013"%char.

Fixpoint skip_spaces (s : string) : string :=
  match s with
  | String c s' => if is_space c then skip_spaces s' else s
  | EmptyString => s
  end.

Definition digit (c : ascii) : option Z :=
  let n := nat_of_ascii c in
  if (48 <=? n) && (n <=? 57) then Some (Z.of_nat (n - 48)) else None.

(** The longest prefix of decimal digits, as a number, and the rest. *)
Fixpoint digits (s : string) (acc : option Z) : option Z * string :=
  match s with
  | String c s' =>
      match digit c with
      | Some d =>
          digits s' (Some (match acc with
                           | Some a => a * 10 + d
                           | None => d
                           end)%Z)
      | None => (acc, s)
      end
  | EmptyString => (acc, s)
  end.

Definition all_spaces (s : string) : bool :=
  String.eqb (skip_spaces s) EmptyString.

(** A JSON integer: an optional minus sign, then [0] or a digit
    string without a leading zero. *)
Definition parse_integer (s : string) : option (Z * string) :=
  let (neg, s1) :=
    match s with
    | String "-"%char s' => (true, s')
    | _ => (false, s)
    end in
  match s1 with
  | String "0"%char rest => Some (0%Z, rest)
  | _ =>
      match digits s1 None with
      | (Some n, rest) => Some (if neg then (- n)%Z else n, rest)
      | (None, _) => None
      end
  end.

Definition parse (text : string) : option json :=
  let s := skip_spaces text in
  match Regex.strip_prefix "null" s with
  | Some rest => if all_spaces rest then Some Jnull else None
  | None =>
  match Regex.strip_prefix "true" s with
  | Some rest => if all_spaces rest then Some (Jbool true) else None
  | None =>
  match Regex.strip_prefix "false" s with
  | Some rest => if all_spaces rest then Some (Jbool false) else None
  | None =>
  match parse_integer s with
  | Some (n, rest) => if all_spaces rest then Some (Jnumber n) else None
  | None => None
  end end end end.

(** [Number.parseInt(text, 10)]: white space, a sign, then the longest
    run of digits. *)
Definition parse_int (text : string) : option Z :=
  let s := skip_spaces text in
  let (neg, s1) :=
    match s with
    | String "-"%char s' => (true, s')
    | String "+"%char s' => (false, s')
    | _ => (false, s)
    end in
  match digits s1 None with
  | (Some n, _) => Some (if neg then (- n)%Z else n)
  | (None, _) => None
  end.

#[export] Instance platform : Platform := {|
  JSON := json;
  JNull := Jnull;
  decode := string_of_list_byte;
  JSON_parse := parse;
  parseInt10 := parse_int
|}.

End Reference.

Definition bytes (s : string) : list byte := list_byte_of_string s.

(** An event of the reference platform. *)
Definition ref_event (id : option string) (event : string)
           (data : Reference.json)
  : @SafeSSEDecoder.SSEEvent Reference.platform :=
  @SafeSSEDecoder.mkEvent Reference.platform id event data.

(** An accumulator holding an event type, data that is not JSON and a
    last event id, as left by the lines [id: 7], [event: foo] and
    [data: not-json]. *)
Definition malformed : SafeSSEDecoder.state :=
  {| SafeSSEDecoder.event := "foo";
     SafeSSEDecoder.data := [bytes "not-json"];
     SafeSSEDecoder.lastEventId := "7";
     SafeSSEDecoder.retry := None |}.

(** ** Line splitting as a function of the whole text

    [split skip cur text] reads [text] left to right: [cur] is the line
    in progress and [skip] tells that the previous byte was a carriage
    return, so that a line feed coming next belongs to the same
    terminator.  It returns the terminated lines and the unterminated
    rest.  The proofs relate [BytesLineDecoder.scan] to it. *)

Fixpoint split (skip : bool) (cur text : list byte)
  : list (list byte) * list byte :=
  match text with
  | [] => ([], cur)
  | c :: rest =>
      if skip && Byte.eqb c LF then split false cur rest
      else if Byte.eqb c CR then
        let (ls, r) := split true [] rest in (cur :: ls, r)
      else if Byte.eqb c LF then
        let (ls, r) := split false [] rest in (cur :: ls, r)
      else split false (cur ++ [c]) rest
  end.

(** The flag after reading [a] with the flag [k] set before it. *)
Definition skip_after (k : bool) (a : list byte) : bool :=
  match at_last a with
  | Some c => Byte.eqb c CR
  | None => k
  end.

(** The unterminated rest as a line of its own, when there is one. *)
Definition tail_line (r : list byte) : list (list byte) :=
  match r with
  | [] => []
  | _ => [r]
  end.

(** A final carriage return is held back. *)
Definition strip_cr (t : list byte) : list byte * bool :=
  if opt_is (at_last t) CR then (removelast t, true) else (t, false).

(** What [BytesLineDecoder] remembers between chunks: the bytes of the
    unfinished line and the held-back carriage return. *)
Definition pending : Type := list byte * bool.

Definition pending_of (s : BytesLineDecoder.state) : pending :=
  (joinArrays (BytesLineDecoder.buffer s), BytesLineDecoder.trailingCr s).

Definition held (cr : bool) : list byte := if cr then [CR] else [].

(** One chunk, on the pending bytes. *)
Definition step (p : pending) (chunk : list byte)
  : list (list byte) * pending :=
  let (t, cr') := strip_cr (held (snd p) ++ chunk) in
  let (ls, r) := split false (fst p) t in
  (ls, (r, cr')).

Section AfterStrip.
Import BytesLineDecoder.

(** The body of [BytesLineDecoder.transform] after lines 41-49, on the
    adjusted text. *)
Definition after_strip (s : BytesLineDecoder.state) (text : list byte) (tcr : bool)
  : BytesLineDecoder.state * list (list byte) :=
  if length text =? 0 then ({| buffer := buffer s; trailingCr := tcr |}, [])
  else
    let trailingNewline :=
      match at_last text with
      | Some b => includes TRAILING_NEWLINE b
      | None => false
      end in
    let lines := scan text in
    if (length lines =? 1) && negb trailingNewline
    then ({| buffer := buffer s ++ [hd [] lines]; trailingCr := tcr |}, [])
    else
      let '(buffer1, lines1) :=
        if 0 <? length (buffer s)
        then ([], set_first (joinArrays (buffer s ++ [hd [] lines])) lines)
        else (buffer s, lines) in
      let '(buffer2, lines2) :=
        if negb trailingNewline
        then if 0 <? length lines1
             then ([last lines1 []], removelast lines1)
             else (buffer1, lines1)
        else (buffer1, lines1) in
      ({| buffer := buffer2; trailingCr := tcr |}, lines2).

End AfterStrip.

(** No piece of the buffer is empty. *)
Definition wf (s : BytesLineDecoder.state) : Prop :=
  Forall (fun piece => piece <> []) (BytesLineDecoder.buffer s).

(** ** Notions used to state the claims about [SafeSSEDecoder] *)

(** The accumulator after a dispatch (lines 110-112). *)
Definition reset (s : SafeSSEDecoder.state) : SafeSSEDecoder.state :=
  {| SafeSSEDecoder.event := EmptyString;
     SafeSSEDecoder.data := [];
     SafeSSEDecoder.lastEventId := SafeSSEDecoder.lastEventId s;
     SafeSSEDecoder.retry := None |}.

(** The test of line 99: nothing was accumulated and no id was seen. *)
Definition untouched (s : SafeSSEDecoder.state) : bool :=
  falsy (SafeSSEDecoder.event s)
  && (length (SafeSSEDecoder.data s) =? 0)
  && falsy (SafeSSEDecoder.lastEventId s)
  && SafeSSEDecoder.is_null (SafeSSEDecoder.retry s).

(** The line is an [id] field whose value has no NUL byte: the only
    lines that assign [lastEventId] (lines 123-124). *)
Definition sets_id {P : Platform} (line : list byte) : bool :=
  match SafeSSEDecoder.parse_field line with
  | Some (fieldName, value) =>
      String.eqb fieldName "id"
      && match indexOf value NULL with
         | None => true
         | Some _ => false
         end
  | None => false
  end.

(** The data buffer the SSE specification describes: the values joined
    by line feeds. *)
Fixpoint sse_spec_payload (values : list (list byte)) : list byte :=
  match values with
  | [] => []
  | [v] => v
  | v :: rest => v ++ [LF] ++ sse_spec_payload rest
  end.

(** ** [joinArrays] as the loop it is written as (lines 11-20)

    The source allocates [merged] with the total length and copies each
    array at a running offset. *)

(** [data.reduce((acc, curr) => acc + curr.length, 0)] *)
Definition total_length (data : list (list byte)) : nat :=
  fold_left (fun acc curr => acc + length curr) data 0.

(** [merged.set(c, offset)]: [None] for the [RangeError] thrown when the
    source does not fit. *)
Definition set_at (merged c : list byte) (offset : nat)
  : option (list byte) :=
  if offset + length c <=? length merged
  then Some (firstn offset merged ++ c ++ skipn (offset + length c) merged)
  else None.

(** The [for (const c of data)] loop. *)
Fixpoint join_loop (data : list (list byte)) (merged : list byte)
         (offset : nat) : option (list byte) :=
  match data with
  | [] => Some merged
  | c :: rest =>
      match set_at merged c offset with
      | Some merged' => join_loop rest merged' (offset + length c)
      | None => None
      end
  end.

(** [new Uint8Array(totalLength)] is zero-filled. *)
Definition joinArrays_loop (data : list (list byte)) : option (list byte) :=
  join_loop data (repeat x00 (total_length data)) 0.

(** ** Notions used to state further properties of the decoders *)

(** The bytes are free of carriage returns and line feeds. *)
Definition no_nl (l : list byte) : Prop :=
  Forall (fun b => includes TRAILING_NEWLINE b = false) l.

(** Lines written out, each followed by a line feed or by a carriage
    return and a line feed ([true]). *)
Definition encode_lines (ls : list (list byte * bool)) : list byte :=
  flat_map (fun lt : list byte * bool =>
              fst lt ++ (if snd lt then [CR; LF] else [LF])) ls.

(** The blank lines among the lines. *)
Definition blank_lines (ls : list (list byte)) : nat :=
  length (filter (fun l => length l =? 0) ls).

(** The number of line terminator bytes. *)
Definition terminator_bytes (text : list byte) : nat :=
  length (filter (includes TRAILING_NEWLINE) text).

(** Occurrence of [/runs/] followed by a character that [.] matches. *)
Definition has_run_segment (cl : string) : Prop :=
  exists pre c rest,
    cl = String.append pre (String.append "/runs/" (String c rest))
    /\ Regex.is_line_terminator c = false.

(** No character of the string is a line terminator. *)
Fixpoint dot_string (s : string) : bool :=
  match s with
  | EmptyString => true
  | String c s' => negb (Regex.is_line_terminator c) && dot_string s'
  end.

(** No character of the string is a slash. *)
Fixpoint no_slash (s : string) : bool :=
  match s with
  | EmptyString => true
  | String c s' => negb (Ascii.eqb c "/"%char) && no_slash s'
  end.

(** The number of slashes of the string. *)
Fixpoint count_slash (s : string) : nat :=
  match s with
  | EmptyString => 0
  | String c s' => (if Ascii.eqb c "/"%char then 1 else 0) + count_slash s'
  end.

(** The string is empty or starts with a line terminator: [.] cannot
    go on. *)
Definition dot_stops (s : string) : Prop :=
  match s with
  | EmptyString => True
  | String c _ => Regex.is_line_terminator c = true
  end.

(** What [match_at] does for the part [\/runs\/(?<run_id>.+)] at the end
    of the pattern, with the groups [g] captured before it. *)
Definition run_part (s : string) (g : Regex.groups) : option Regex.groups :=
  match Regex.strip_prefix "/runs/" s with
  | Some s2 =>
      Regex.dot_plus s2
        (fun s3 =>
           Some (("run_id"%string,
                  Regex.take (String.length s2 - String.length s3) s2) :: g))
  | None => None
  end.

(** An event written as lines: its type, one data line, a blank line. *)
Definition event_lines (e d : list byte) : list (list byte) :=
  [list_byte_of_string "event: " ++ e; list_byte_of_string "data: " ++ d; []].


(** ** AssistantTurn (components/thread/messages, lines 191-262)

    The grouping of the messages of one assistant turn into the
    collapsed "thinking" box and the final answer. *)

Module AssistantTurn.
Section WithMessage.

(** A [Message] of the SDK, through the two properties the component
    reads: [type] and [tool_calls] ([None]: undefined). *)
Variable Message : Type.
Variable ToolCall : Type.
Variable type : Message -> string.
Variable tool_calls : Message -> option (list ToolCall).

(** [messages[messages.length - 1]]; [None] for [undefined]. *)
Definition lastMessage (messages : list Message) : option Message :=
  match messages with
  | [] => None
  | m :: rest => Some (last rest m)
  end.

(** Line 208. *)
Definition isLastMessageTool (m : Message) : bool :=
  String.eqb (type m) "tool"
  || (String.eqb (type m) "ai"
      && match tool_calls m with
         | Some calls => 0 <? length calls
         | None => false
         end).

(** The three variables assigned in lines 210-232. *)
Record grouping := mkGrouping {
  thinkingMessages : list Message;
  finalMessages : list Message;
  isThinkingLoading : bool
}.

(** Lines 207-232; [None] is the [TypeError] of reading [type] of
    [undefined], when [messages] is empty. *)
Definition group (messages : list Message) (isLoading : bool)
  : option grouping :=
  match lastMessage messages with
  | None => None
  | Some lastMsg =>
      if isLastMessageTool lastMsg then
        Some {| thinkingMessages := messages;
                finalMessages := [];
                isThinkingLoading := isLoading |}
      else if isLoading then
        Some {| thinkingMessages := messages;
                finalMessages := [];
                isThinkingLoading := true |}
      else
        Some {| thinkingMessages := removelast messages;
                finalMessages := [lastMsg];
                isThinkingLoading := false |}
  end.

(** Lines 236-259: the [Thinking] box with its [isLoading] property,
    when there is one, and each final message with the [isLoading]
    property it is rendered with. *)
Record view := mkView {
  thinkingBox : option (bool * list Message);
  finals : list (Message * bool)
}.

(** [finalMessages.map((msg, idx) => ...)] from index [idx]. *)
Fixpoint render_finals (isLoading : bool) (n : nat) (idx : nat)
         (msgs : list Message) : list (Message * bool) :=
  match msgs with
  | [] => []
  | m :: rest =>
      (m, isLoading && (idx =? n - 1))
        :: render_finals isLoading n (S idx) rest
  end.

Definition render (g : grouping) (isLoading : bool) : view :=
  {| thinkingBox :=
       if 0 <? length (thinkingMessages g)
       then Some (isThinkingLoading g, thinkingMessages g)
       else None;
     finals := render_finals isLoading (length (finalMessages g)) 0
                             (finalMessages g) |}.

(** The component, from its properties to what it renders. *)
Definition AssistantTurn (messages : list Message) (isLoading : bool)
  : option view :=
  match group messages isLoading with
  | Some g => Some (render g isLoading)
  | None => None
  end.

End WithMessage.
End AssistantTurn.

(** ** formatDuration (components/thread/messages/thinking.tsx,
    lines 130-140)

    [ms] is the [duration] state, a difference of two [Date.now()]
    values: an integer.  On integers below 2^53 the divisions by 60000
    and by 1000 followed by [Math.floor], and the remainder, are exact,
    so they are the integer operations.  [toFixed] works on the binary
    fraction [ms / 1000] and is left to the platform. *)

Module Thinking.
Section WithToFixed.

(** [(ms / 1000).toFixed(1)] for the integer [ms]. *)
Variable toFixed1 : Z -> string.

(** The decimal digits of an integer, as a template literal prints it. *)
Definition decimal (n : Z) : string := NilZero.string_of_int (Z.to_int n).

Definition formatDuration (ms : Z) : string :=
  if ((ms <? 1000) && (ms >? 0))%Z then String.append (toFixed1 ms) "s"
  else if (ms =? 0)%Z then "0s"%string
  else if (ms <? 60000)%Z then String.append (toFixed1 ms) "s"
  else
    let minutes := (ms / 60000)%Z in
    let seconds := ((ms mod 60000) / 1000)%Z in
    String.append (decimal minutes)
      (String.append "m " (String.append (decimal seconds) "s")).

End WithToFixed.
End Thinking.

(** A message type for examples: its [type] and its tool calls. *)
Record example_message := mkMessage {
  example_type : string;
  example_tool_calls : option (list string)
}.

(** * Proofs *)

(** ** Bytes and arrays *)

Lemma eqb_refl_byte (b : byte) : Byte.eqb b b = true.
Proof. now apply Byte.byte_dec_lb. Qed.

Lemma eqb_eq_byte (a b : byte) : Byte.eqb a b = true <-> a = b.
Proof.
  split; [apply Byte.byte_dec_bl | apply Byte.byte_dec_lb].
Qed.

Lemma at_last_app (l : list byte) (b : byte) : at_last (l ++ [b]) = Some b.
Proof.
  induction l as [|a l IH]; [reflexivity|].
  simpl. rewrite IH. now destruct (l ++ [b]) eqn:E; [destruct l|].
Qed.

Lemma at_last_none (l : list byte) : at_last l = None -> l = [].
Proof.
  induction l as [|a l IH]; [reflexivity|].
  simpl. destruct l; [discriminate|]. intros H. now apply IH in H.
Qed.

Lemma at_last_cons (a : byte) (l : list byte) :
  l <> [] -> at_last (a :: l) = at_last l.
Proof. now destruct l. Qed.

Lemma at_last_app_r (l1 l2 : list byte) :
  l2 <> [] -> at_last (l1 ++ l2) = at_last l2.
Proof.
  intros H. destruct (exists_last H) as (l & b & ->).
  now rewrite app_assoc, !at_last_app.
Qed.

Lemma joinArrays_app (a b : list (list byte)) :
  joinArrays (a ++ b) = joinArrays a ++ joinArrays b.
Proof.
  induction a as [|x a IH]; [reflexivity|].
  simpl. now rewrite IH, app_assoc.
Qed.

Lemma joinArrays_concat (a : list (list byte)) : joinArrays a = concat a.
Proof. induction a as [|x a IH]; simpl; congruence. Qed.

Lemma subarray_middle (done cur suf : list byte) :
  subarray (done ++ cur ++ suf) (length done) (length done + length cur)
  = cur.
Proof.
  unfold subarray.
  rewrite skipn_app, skipn_all, Nat.sub_diag. simpl.
  replace (length done + length cur - length done) with (length cur + 0) by lia.
  now rewrite firstn_app_2, app_nil_r.
Qed.

Lemma subarray_from_app (done rest : list byte) :
  subarray_from (done ++ rest) (length done) = rest.
Proof.
  unfold subarray_from.
  now rewrite skipn_app, skipn_all, Nat.sub_diag.
Qed.

Lemma nth_error_middle (done : list byte) (c : byte) (rest : list byte) :
  nth_error (done ++ c :: rest) (length done) = Some c.
Proof. now rewrite nth_error_app2, Nat.sub_diag by lia. Qed.

Lemma nth_error_next (done : list byte) (c : byte) (rest : list byte) :
  nth_error (done ++ c :: rest) (length done + 1) = hd_error rest.
Proof.
  rewrite nth_error_app2 by lia.
  replace (length done + 1 - length done) with 1 by lia.
  now destruct rest.
Qed.

(** ** [scan] computes [split] *)

Module LineProofs.
Import BytesLineDecoder.

Lemma split_nil (skip : bool) (cur : list byte) : split skip cur [] = ([], cur).
Proof. reflexivity. Qed.

Lemma reduce_from_cons f (cur : byte) (rest : list byte) (idx : nat) (a : acc) :
  reduce_from f (cur :: rest) idx a = reduce_from f rest (S idx) (f a cur idx).
Proof. reflexivity. Qed.

#[local] Arguments reduce_from : simpl never.
#[local] Arguments reducer : simpl never.

(** Settles the index comparisons of the goal by [lia]. *)
Ltac cmp :=
  repeat match goal with
    | |- context [?a =? ?b] =>
        first [ replace (a =? b) with true
                  by (symmetry; apply Nat.eqb_eq; lia)
              | replace (a =? b) with false
                  by (symmetry; apply Nat.eqb_neq; lia) ]
    | |- context [?a <=? ?b] =>
        first [ replace (a <=? b) with true
                  by (symmetry; apply Nat.leb_le; lia)
              | replace (a <=? b) with false
                  by (symmetry; apply Nat.leb_gt; lia) ]
    | |- context [?a <? ?b] =>
        first [ replace (a <? b) with true
                  by (symmetry; apply Nat.ltb_lt; lia)
              | replace (a <? b) with false
                  by (symmetry; apply Nat.ltb_ge; lia) ]
    end.

(** The invariant of the [reduce] loop: [done] is the part of the text
    before [from], [cur] the line in progress, [suf] what is still to be
    visited. *)
Lemma reduce_split (text suf : list byte) :
  forall done cur L f skip ls r,
    text = done ++ cur ++ suf ->
    suf <> [] ->
    (f = length done /\ (skip = true -> hd_error suf <> Some LF)
     \/ f = S (length done) /\ cur = [] /\ skip = true
        /\ hd_error suf = Some LF) ->
    split skip cur suf = (ls, r) ->
    lines (reduce_from (reducer text (length text - 1)) suf
                       (length done + length cur)
                       {| lines := L; from := f |})
    = L ++ ls ++ tail_line r.
Proof.
  induction suf as [|c suf' IH]; intros done cur L f skip ls r Ht Hne Hinv Hs;
    [congruence|].
  assert (Hlen : length text - 1 = length done + length cur + length suf').
  { subst text. rewrite !length_app. simpl. lia. }
  assert (Hnth : nth_error text (length done + length cur + 1)
                 = hd_error suf').
  { subst text. rewrite app_assoc, <- length_app. apply nth_error_next. }
  assert (Hsub : subarray text (length done) (length done + length cur) = cur).
  { subst text. apply subarray_middle. }
  assert (Hterm : forall L',
    match suf' with
    | [] => True
    | _ => forall sk ls1 r1,
        (sk = true -> hd_error suf' <> Some LF) ->
        split sk [] suf' = (ls1, r1) ->
        lines (reduce_from (reducer text (length text - 1)) suf'
                 (S (length done + length cur))
                 {| lines := L'; from := length done + length cur + 1 |})
        = L' ++ ls1 ++ tail_line r1
    end).
  { intros L'. destruct suf' as [|d suf'']; [exact I|].
    intros sk ls1 r1 Hsk Hs1.
    specialize (IH (done ++ cur ++ [c]) [] L'
                   (length done + length cur + 1) sk ls1 r1).
    replace (length (done ++ cur ++ [c]) + length (@nil byte))
      with (S (length done + length cur)) in IH
      by (rewrite !length_app; simpl; lia).
    apply IH; [ | discriminate | | exact Hs1].
    - subst text. now rewrite <- !app_assoc.
    - left. split; [|exact Hsk]. rewrite !length_app. simpl. lia. }
  rewrite reduce_from_cons. unfold reducer at 2. simpl lines. simpl from.
  rewrite Hnth.
  destruct Hinv as [[-> Hskip] | (-> & -> & -> & Hhd)].
  - (* the byte at [idx] is visited *)
    rewrite Hsub.
    cmp.
    simpl in Hs.
    assert (Hsk : skip && Byte.eqb c LF = false).
    { destruct skip; [|reflexivity]. simpl.
      destruct (Byte.eqb c LF) eqn:E; [|reflexivity].
      apply eqb_eq_byte in E. subst c. now destruct Hskip. }
    rewrite Hsk in Hs.
    destruct (Byte.eqb c CR) eqn:Ecr.
    + (* a carriage return *)
      simpl orb. simpl andb.
      destruct (split true [] suf') as [ls' r'] eqn:Es'.
      injection Hs as <- <-.
      destruct suf' as [|d suf''].
      * simpl opt_is. simpl from. simpl lines.
        simpl in Es'. injection Es' as <- <-.
        simpl in Hlen. cmp. simpl. reflexivity.
      * simpl hd_error. simpl opt_is. simpl in Hlen.
        destruct (Byte.eqb d LF) eqn:Ed; simpl lines; simpl from; cmp;
          simpl andb; cbv iota.
        -- (* the pair: the line feed is skipped at the next index *)
           apply eqb_eq_byte in Ed. subst d.
           specialize (IH (done ++ cur ++ [c]) [] (L ++ [cur])
                          (length done + length cur + 2) true ls' r').
           replace (length (done ++ cur ++ [c]) + length (@nil byte))
             with (S (length done + length cur)) in IH
             by (rewrite !length_app; simpl; lia).
           rewrite IH; [now rewrite <- !app_assoc | | discriminate | | exact Es'].
           ++ subst text. now rewrite <- !app_assoc.
           ++ right. repeat split. rewrite !length_app. simpl. lia.
        -- rewrite (Hterm (L ++ [cur]) true ls' r');
             [now rewrite <- !app_assoc | | exact Es'].
           intros _ [= ->]. now rewrite eqb_refl_byte in Ed.
    + destruct (Byte.eqb c LF) eqn:Elf.
      * (* a line feed *)
        simpl orb. simpl andb.
        destruct (split false [] suf') as [ls' r'] eqn:Es'.
        injection Hs as <- <-.
        simpl lines. simpl from.
        destruct suf' as [|d suf''].
        -- simpl in Es'. injection Es' as <- <-.
           simpl in Hlen. cmp. simpl. reflexivity.
        -- simpl in Hlen. cmp. simpl andb. cbv iota.
           rewrite (Hterm (L ++ [cur]) false ls' r');
             [now rewrite <- !app_assoc | discriminate | exact Es'].
      * (* any other byte *)
        simpl orb. cbv iota.
        destruct suf' as [|d suf''].
        -- simpl in Hs. injection Hs as <- <-.
           simpl from. simpl lines. simpl in Hlen. cmp. simpl.
           replace (subarray_from text (length done)) with (cur ++ [c])
             by (subst text; now rewrite subarray_from_app).
           now destruct cur.
        -- simpl in Hlen. cmp. simpl andb. cbv iota.
           specialize (IH done (cur ++ [c]) L (length done) false ls r).
           replace (length done + length (cur ++ [c]))
             with (S (length done + length cur)) in IH
             by (rewrite !length_app; simpl; lia).
           apply IH; [ | discriminate | | exact Hs].
           ++ subst text. now rewrite <- !app_assoc.
           ++ left. split; [reflexivity | discriminate].
  - (* the line feed of a pair: skipped *)
    destruct suf' as [|d suf'']; simpl in Hhd; [|].
    all: injection Hhd as ->.
    all: simpl length; rewrite Nat.add_0_r.
    all: cmp.
    all: simpl in Hs.
    + injection Hs as <- <-. simpl. now rewrite app_nil_r.
    + specialize (IH (done ++ [LF]) [] L (S (length done)) false ls r).
      replace (length (done ++ [LF]) + length (@nil byte))
        with (S (length done)) in IH
        by (rewrite !length_app; simpl; lia).
      apply IH; [ | discriminate | | exact Hs].
      * subst text. now rewrite <- !app_assoc.
      * left. split; [|discriminate]. rewrite !length_app. simpl. lia.
Qed.

Lemma scan_split (text : list byte) (ls : list (list byte)) (r : list byte) :
  text <> [] ->
  split false [] text = (ls, r) ->
  scan text = ls ++ tail_line r.
Proof.
  intros Hne Hs. unfold scan.
  apply (reduce_split text text [] [] [] 0 false ls r);
    [reflexivity | exact Hne | | exact Hs].
  left. split; [reflexivity | discriminate].
Qed.

(** ** Properties of [split] *)

(** The line in progress only prefixes the first line that comes out. *)
Lemma split_cur (text : list byte) :
  forall k p,
    split k p text =
    let (ls, r) := split k [] text in
    match ls with
    | [] => ([], p ++ r)
    | l :: ls' => ((p ++ l) :: ls', r)
    end.
Proof.
  induction text as [|c text IH]; intros k p; simpl.
  - now rewrite app_nil_r.
  - destruct (k && Byte.eqb c LF); [apply IH|].
    destruct (Byte.eqb c CR).
    { destruct (split true [] text) as [ls r]. now rewrite app_nil_r. }
    destruct (Byte.eqb c LF).
    { destruct (split false [] text) as [ls r]. now rewrite app_nil_r. }
    rewrite (IH false (p ++ [c])), (IH false [c]).
    destruct (split false [] text) as [[|l ls] r]; now rewrite <- app_assoc.
Qed.

(** Without a terminator the whole text is the rest. *)
Lemma split_no_lines (text : list byte) :
  forall cur r, split false cur text = ([], r) -> r = cur ++ text.
Proof.
  induction text as [|c text IH]; intros cur r; simpl.
  - intros [= <-]. now rewrite app_nil_r.
  - destruct (Byte.eqb c CR).
    { destruct (split true [] text). discriminate. }
    destruct (Byte.eqb c LF).
    { destruct (split false [] text). discriminate. }
    intros H. apply IH in H. now rewrite <- app_assoc in H.
Qed.

(** A non-empty text has a first line: [lines[0]] in [transform] is
    never read from an empty array. *)
Lemma scan_nonempty (text : list byte) : text <> [] -> scan text <> [].
Proof.
  intros Hne. destruct (split false [] text) as [ls r] eqn:Es.
  rewrite (scan_split text ls r Hne Es).
  destruct ls as [|l ls]; [|discriminate].
  apply split_no_lines in Es. simpl in Es. subst r.
  now destruct text.
Qed.

(** The rest is empty exactly when the text ends with a terminator. *)
Lemma split_rest (text : list byte) :
  forall k cur ls r,
    (k = true -> cur = []) ->
    split k cur text = (ls, r) ->
    match at_last text with
    | Some b => if includes TRAILING_NEWLINE b then r = [] else r <> []
    | None => r = cur
    end.
Proof.
  induction text as [|c text IH]; intros k cur ls r Hk; simpl split.
  - now intros [= <- <-].
  - assert (Hlast : at_last (c :: text)
                    = match text with [] => Some c | _ => at_last text end)
      by now destruct text.
    assert (Hend : forall k' cur' ls' r',
               (k' = true -> cur' = []) ->
               (text = [] -> if includes TRAILING_NEWLINE c
                             then cur' = [] else cur' <> []) ->
               split k' cur' text = (ls', r') ->
               match at_last (c :: text) with
               | Some b => if includes TRAILING_NEWLINE b
                           then r' = [] else r' <> []
               | None => r' = cur
               end).
    { intros k' cur' ls' r' Hk' Hc Hs. rewrite Hlast.
      destruct text as [|d text'].
      - simpl in Hs. injection Hs as <- <-. now apply Hc.
      - specialize (IH k' cur' ls' r' Hk' Hs).
        destruct (at_last (d :: text')) eqn:E; [exact IH|].
        now apply at_last_none in E. }
    unfold includes, TRAILING_NEWLINE in *. simpl existsb in *.
    destruct (k && Byte.eqb c LF) eqn:Ek.
    { apply andb_prop in Ek as [-> Ec]. intros Hs.
      apply (Hend false cur ls r); [discriminate | | exact Hs].
      intros _. rewrite Ec, orb_true_r. simpl. now apply Hk. }
    destruct (Byte.eqb c CR) eqn:Ecr.
    { destruct (split true [] text) as [ls' r'] eqn:Es. intros [= <- <-].
      apply (Hend true [] ls' r'); [reflexivity | | exact Es].
      now intros _. }
    destruct (Byte.eqb c LF) eqn:Elf.
    { destruct (split false [] text) as [ls' r'] eqn:Es. intros [= <- <-].
      apply (Hend false [] ls' r'); [discriminate | | exact Es].
      now intros _. }
    intros Hs.
    apply (Hend false (cur ++ [c]) ls r); [discriminate | | exact Hs].
    intros _. simpl. now destruct cur.
Qed.

(** Reading [a ++ b] is reading [a], then [b] from where [a] stopped. *)
Lemma split_app (a : list byte) :
  forall b k p,
    split k p (a ++ b) =
    let (l1, r1) := split k p a in
    let (l2, r2) := split (skip_after k a) r1 b in
    (l1 ++ l2, r2).
Proof.
  induction a as [|c a IH]; intros b k p.
  - simpl. unfold skip_after. simpl. now destruct (split k p b).
  - assert (Hsk : forall k', k' = Byte.eqb c CR ->
               skip_after k (c :: a) = skip_after k' a).
    { intros k' ->. unfold skip_after.
      destruct a as [|d a']; [reflexivity|].
      rewrite at_last_cons by discriminate.
      destruct (at_last (d :: a')) eqn:E; [reflexivity|].
      now apply at_last_none in E. }
    simpl.
    destruct (k && Byte.eqb c LF) eqn:Ek.
    { apply andb_prop in Ek as [-> Ec].
      rewrite IH, (Hsk false); [reflexivity|].
      apply eqb_eq_byte in Ec. now subst c. }
    destruct (Byte.eqb c CR) eqn:Ecr.
    { rewrite IH, (Hsk true) by reflexivity.
      destruct (split true [] a) as [l1 r1].
      now destruct (split (skip_after true a) r1 b). }
    destruct (Byte.eqb c LF) eqn:Elf.
    { rewrite IH, (Hsk false) by reflexivity.
      destruct (split false [] a) as [l1 r1].
      now destruct (split (skip_after false a) r1 b). }
    now rewrite IH, (Hsk false) by reflexivity.
Qed.

(** The flag matters only in front of a line feed. *)
Lemma split_skip_irrelevant (k : bool) (p b : list byte) :
  hd_error b <> Some LF -> split k p b = split false p b.
Proof.
  destruct b as [|c b]; [reflexivity|]. simpl. intros H.
  destruct (Byte.eqb c LF) eqn:E.
  - apply eqb_eq_byte in E. now subst c.
  - now rewrite andb_false_r.
Qed.

(** ** [transform] computes [step] *)

Lemma transform_strip (s : state) (chunk : list byte) :
  transform s chunk =
  let (t, cr') := strip_cr (held (trailingCr s) ++ chunk) in
  after_strip s t cr'.
Proof.
  unfold transform, after_strip, strip_cr, held.
  assert (E : (if trailingCr s then joinArrays [[CR]; chunk] else chunk)
              = (if trailingCr s then [CR] else []) ++ chunk).
  { destruct (trailingCr s); simpl; [now rewrite app_nil_r | reflexivity]. }
  rewrite E. clear E.
  set (t1 := (if trailingCr s then [CR] else []) ++ chunk).
  assert (E : (0 <? length t1) && opt_is (at_last t1) CR
              = opt_is (at_last t1) CR).
  { destruct t1; [reflexivity | apply andb_true_l]. }
  rewrite E. clear E.
  now destruct (opt_is (at_last t1) CR).
Qed.

Lemma buffer_nil_join (b : list (list byte)) :
  Forall (fun piece => piece <> []) b ->
  (0 <? length b) = match joinArrays b with [] => false | _ => true end.
Proof.
  destruct b as [|x b]; [reflexivity|].
  intros H. inversion H as [|? ? Hx _]. simpl. now destruct x.
Qed.

Lemma after_strip_split (s : state) (t : list byte) (cr' : bool) :
  wf s ->
  forall ls r,
    split false (joinArrays (buffer s)) t = (ls, r) ->
    exists s',
      after_strip s t cr' = (s', ls)
      /\ joinArrays (buffer s') = r
      /\ trailingCr s' = cr'
      /\ wf s'.
Proof.
  intros Hwf ls r Hs. unfold after_strip.
  destruct t as [|c t'] eqn:Et.
  { simpl in *. injection Hs as <- <-.
    eexists. split; [reflexivity|]. repeat split. exact Hwf. }
  rewrite <- Et in *.
  assert (Hne : t <> []) by (subst t; discriminate).
  replace (length t =? 0) with false
    by (subst t; reflexivity).
  destruct (split false [] t) as [ls0 r0] eqn:Es0.
  rewrite (scan_split t ls0 r0 Hne Es0).
  pose proof (split_rest t false [] ls0 r0 ltac:(discriminate) Es0) as Hrest.
  rewrite split_cur, Es0 in Hs.
  destruct (at_last t) as [b|] eqn:Elast;
    [|apply at_last_none in Elast; contradiction].
  destruct (includes TRAILING_NEWLINE b) eqn:Etn.
  - (* the text ends with a terminator: nothing is left over *)
    subst r0. simpl tail_line. rewrite app_nil_r, andb_false_r.
    destruct ls0 as [|l ls'].
    { apply split_no_lines in Es0. simpl in Es0. now subst t. }
    injection Hs as <- <-. simpl negb. cbv iota.
    destruct (buffer s) as [|x bs] eqn:Eb.
    + simpl. eexists. split; [reflexivity|]. repeat split. constructor.
    + simpl. eexists. split.
      { rewrite joinArrays_app, app_assoc. simpl. rewrite app_nil_r.
        reflexivity. }
      repeat split. constructor.
  - (* the text ends inside a line *)
    destruct r0 as [|c0 r0']; [contradiction|].
    simpl tail_line. simpl negb. rewrite andb_true_r.
    destruct ls0 as [|l ls'].
    + injection Hs as <- <-. simpl.
      eexists. split; [reflexivity|]. repeat split.
      * now simpl; rewrite joinArrays_app; simpl; rewrite app_nil_r.
      * apply Forall_app. split; [exact Hwf|].
        constructor; [discriminate | constructor].
    + injection Hs as <- <-.
      replace (length ((l :: ls') ++ [c0 :: r0']) =? 1) with false
        by (rewrite length_app; simpl; symmetry; apply Nat.eqb_neq; lia).
      simpl hd.
      assert (Hl : forall x, last (x :: ls' ++ [c0 :: r0']) [] = c0 :: r0').
      { intros x. now rewrite app_comm_cons, last_last. }
      assert (Hr : forall x, removelast (x :: ls' ++ [c0 :: r0']) = x :: ls').
      { intros x. now rewrite app_comm_cons, removelast_last. }
      destruct (buffer s) as [|x bs] eqn:Eb.
      * simpl. simpl in Hl, Hr. rewrite Hl, Hr.
        eexists. split; [reflexivity|]. repeat split.
        -- now simpl; rewrite app_nil_r.
        -- constructor; [discriminate | constructor].
      * simpl. simpl in Hl, Hr. rewrite Hl, Hr.
        eexists. split.
        { rewrite joinArrays_app, app_assoc. simpl. rewrite app_nil_r.
          reflexivity. }
        repeat split.
        -- now simpl; rewrite app_nil_r.
        -- constructor; [discriminate | constructor].
Qed.

Lemma transform_step (s : state) (chunk : list byte) :
  wf s ->
  exists s' out,
    transform s chunk = (s', out)
    /\ step (pending_of s) chunk = (out, pending_of s')
    /\ wf s'.
Proof.
  intros Hwf. rewrite transform_strip. unfold step, pending_of. simpl fst.
  simpl snd.
  destruct (strip_cr (held (trailingCr s) ++ chunk)) as [t cr'].
  destruct (split false (joinArrays (buffer s)) t) as [ls r] eqn:Es.
  destruct (after_strip_split s t cr' Hwf ls r Es) as (s' & -> & <- & <- & Hwf').
  now exists s', ls.
Qed.

(** ** Chunk boundaries do not matter to [step] *)

Lemma strip_cr_held (k : bool) : strip_cr (held k) = ([], k).
Proof. now destruct k. Qed.

Lemma strip_cr_app (a b : list byte) :
  b <> [] ->
  strip_cr (a ++ b) = let (u, k) := strip_cr b in (a ++ u, k).
Proof.
  intros Hb. unfold strip_cr.
  rewrite at_last_app_r by exact Hb.
  destruct (opt_is (at_last b) CR); [|reflexivity].
  now rewrite removelast_app.
Qed.

Lemma strip_cr_spec (t u : list byte) (k : bool) :
  strip_cr t = (u, k) ->
  t = u ++ held k /\ (k = false -> skip_after false t = false).
Proof.
  unfold strip_cr, skip_after.
  destruct (at_last t) as [c|] eqn:E; simpl.
  - destruct (Byte.eqb c CR) eqn:Ec; intros [= <- <-].
    + split; [|discriminate].
      apply eqb_eq_byte in Ec. subst c.
      assert (Hne : t <> []) by (intros ->; discriminate).
      destruct (exists_last Hne) as (t' & d & ->).
      rewrite at_last_app in E. injection E as ->.
      now rewrite removelast_last.
    + now rewrite app_nil_r.
  - intros [= <- <-]. now rewrite app_nil_r.
Qed.

Lemma step_nil (p : pending) : step p [] = ([], p).
Proof.
  destruct p as [b k]. unfold step. simpl fst. simpl snd.
  now rewrite app_nil_r, strip_cr_held.
Qed.

Lemma step_app (p : pending) (c1 c2 : list byte) :
  step p (c1 ++ c2) =
  let (l1, p1) := step p c1 in
  let (l2, p2) := step p1 c2 in
  (l1 ++ l2, p2).
Proof.
  destruct c2 as [|x c2'].
  { rewrite app_nil_r. destruct (step p c1) as [l1 p1].
    now rewrite step_nil, app_nil_r. }
  set (c2 := x :: c2'). assert (Hc2 : c2 <> []) by discriminate.
  destruct p as [b k]. unfold step. simpl fst. simpl snd.
  rewrite app_assoc, strip_cr_app by exact Hc2.
  destruct (strip_cr (held k ++ c1)) as [v k1] eqn:E1.
  destruct (strip_cr_spec _ _ _ E1) as [Ht1 Hk1].
  destruct (split false b v) as [l1 r1] eqn:Es1.
  simpl fst. simpl snd.
  rewrite strip_cr_app by exact Hc2.
  destruct (strip_cr c2) as [u2 k2].
  rewrite Ht1, <- app_assoc, split_app, Es1.
  assert (E : split (skip_after false v) r1 (held k1 ++ u2)
              = split false r1 (held k1 ++ u2)).
  { destruct k1.
    - apply split_skip_irrelevant. simpl. discriminate.
    - rewrite Ht1 in Hk1. simpl in Hk1. rewrite app_nil_r in Hk1.
      now rewrite Hk1. }
  rewrite E.
  now destruct (split false r1 (held k1 ++ u2)).
Qed.

(** ** Whole streams *)

Lemma wf_start : wf start.
Proof. constructor. Qed.

(** Feeding the chunks one by one is one [step] on their concatenation. *)
Lemma feed_step (chunks : list (list byte)) :
  forall s,
    wf s ->
    exists s' out,
      feed s chunks = (s', out)
      /\ step (pending_of s) (concat chunks) = (out, pending_of s')
      /\ wf s'.
Proof.
  induction chunks as [|c chunks IH]; intros s Hwf.
  - exists s, []. simpl. now rewrite step_nil.
  - destruct (transform_step s c Hwf) as (s1 & out1 & Et & Es & Hwf1).
    destruct (IH s1 Hwf1) as (s2 & out2 & Ef & Es2 & Hwf2).
    exists s2, (out1 ++ out2). simpl. rewrite Et, Ef.
    now rewrite step_app, Es, Es2.
Qed.

Lemma flush_pending (s : state) :
  wf s -> flush s = tail_line (fst (pending_of s)).
Proof.
  intros Hwf. unfold flush, pending_of. simpl fst.
  rewrite (buffer_nil_join _ Hwf).
  now destruct (joinArrays (buffer s)).
Qed.

(** The lines of a stream, as a function of its bytes alone. *)
Lemma run_step (chunks : list (list byte)) :
  run chunks =
  let (out, p) := step ([], false) (concat chunks) in
  out ++ tail_line (fst p).
Proof.
  unfold run.
  destruct (feed_step chunks start wf_start) as (s' & out & -> & Es & Hwf).
  change (pending_of start) with (@nil byte, false) in Es.
  now rewrite Es, flush_pending.
Qed.

End LineProofs.

(** ** Claims about [BytesLineDecoder] *)

(** C1. For every byte sequence [bs] and every way [chunks] of cutting it
    into chunks, also between a carriage return and its line feed,
    feeding the chunks one by one and flushing enqueues the same lines,
    in the same order, as feeding [bs] as a single chunk and flushing. *)
Theorem C1_chunking_does_not_matter
        (bs : list byte) (chunks : list (list byte)) :
  concat chunks = bs ->
  BytesLineDecoder.run chunks = BytesLineDecoder.run [bs].
Proof.
  intros <-. rewrite !LineProofs.run_step. simpl concat.
  now rewrite app_nil_r.
Qed.

Lemma C1_witness :
  BytesLineDecoder.run [bytes "ab"; [x63; CR]; [LF; x64]; []; [CR]; [CR; x65]]
  = BytesLineDecoder.run [[x61; x62; x63; CR; LF; x64; CR; CR; x65]].
Proof.
  apply (C1_chunking_does_not_matter
           [x61; x62; x63; CR; LF; x64; CR; CR; x65]).
  reflexivity.
Defined.

(** A chunk that is exactly a line feed, or a carriage return and a line
    feed, enqueues one empty line at once. *)
Lemma lone_lf_one_empty_line :
  BytesLineDecoder.transform BytesLineDecoder.start [LF]
  = (BytesLineDecoder.start, [[]]).
Proof. reflexivity. Qed.

Lemma lone_crlf_one_empty_line :
  BytesLineDecoder.transform BytesLineDecoder.start [CR; LF]
  = (BytesLineDecoder.start, [[]]).
Proof. reflexivity. Qed.

(** An empty chunk enqueues nothing and leaves the state as it is. *)
Lemma empty_chunk_no_effect (s : BytesLineDecoder.state) :
  BytesLineDecoder.transform s [] = (s, []).
Proof. now destruct s as [b [|]]. Qed.

(** C9. A chunk that is exactly a carriage return enqueues no line at
    all: [transform] holds the byte back and returns, and [flush] looks
    at [buffer] only, which is empty.  The empty line the claim expects
    is never produced. *)
Theorem C9_lone_cr_emits_nothing :
  BytesLineDecoder.transform BytesLineDecoder.start [CR]
  = ({| BytesLineDecoder.buffer := [];
        BytesLineDecoder.trailingCr := true |}, [])
  /\ BytesLineDecoder.flush
       {| BytesLineDecoder.buffer := [];
          BytesLineDecoder.trailingCr := true |} = []
  /\ BytesLineDecoder.run [[CR]] = []
  /\ BytesLineDecoder.run [[CR]; bytes "a"] = [[]; bytes "a"].
Proof. repeat split. Qed.

(** ** [SafeSSEDecoder]: the dispatch and the fields *)

Module SSEProofs.
Import SafeSSEDecoder.
Section WithPlatform.
Context {P : Platform}.

Lemma falsy_true (x : string) : falsy x = true <-> x = EmptyString.
Proof. apply String.eqb_eq. Qed.

Lemma falsy_false (x : string) : falsy x = false <-> x <> EmptyString.
Proof. apply String.eqb_neq. Qed.

Lemma transform_blank (s : state) :
  transform s [] = if untouched s then (s, []) else (reset s, build s).
Proof. reflexivity. Qed.

Lemma untouched_reset (s : state) : untouched s = true -> reset s = s.
Proof.
  destruct s as [e d i r]. unfold untouched, reset. simpl.
  intros H.
  apply andb_prop in H as [H Hr]. apply andb_prop in H as [H Hi].
  apply andb_prop in H as [He Hd].
  apply falsy_true in He. subst e.
  destruct d; [|discriminate]. destruct r; [discriminate|].
  reflexivity.
Qed.

Lemma untouched_false (s : state) :
  untouched s = false <->
  (event s <> EmptyString \/ data s <> [] \/ lastEventId s <> EmptyString
   \/ retry s <> None).
Proof.
  unfold untouched. split.
  - intros H.
    destruct (falsy (event s)) eqn:E1;
      [|left; now apply falsy_false].
    destruct (data s) as [|d ds]; [|right; left; discriminate].
    destruct (falsy (lastEventId s)) eqn:E3;
      [|right; right; left; now apply falsy_false].
    destruct (retry s); [right; right; right; discriminate|].
    discriminate.
  - intros [H | [H | [H | H]]].
    + apply falsy_false in H. now rewrite H.
    + destruct (data s); [contradiction|]. simpl. now rewrite andb_false_r.
    + apply falsy_false in H. rewrite H. now rewrite andb_false_r.
    + destruct (retry s); [|contradiction]. simpl. now rewrite andb_false_r.
Qed.

(** Whatever the accumulator, a blank line leaves it reset. *)
Lemma blank_state (s : state) : fst (transform s []) = reset s.
Proof.
  rewrite transform_blank. destruct (untouched s) eqn:E; [|reflexivity].
  simpl. symmetry. now apply untouched_reset.
Qed.

Lemma blank_events (s : state) :
  snd (transform s []) = if untouched s then [] else build s.
Proof. rewrite transform_blank. now destruct (untouched s). Qed.

Lemma parse_field_nonempty (l : list byte) fv :
  parse_field l = Some fv -> l <> [].
Proof. now destruct l. Qed.

Lemma transform_field (s : state) (l : list byte) name value :
  parse_field l = Some (name, value) ->
  transform s l = (set_field s name value, []).
Proof.
  intros H. unfold transform. rewrite H.
  apply parse_field_nonempty in H. now destruct l.
Qed.

Lemma transform_nonblank (s : state) (l : list byte) :
  l <> [] -> snd (transform s l) = [].
Proof.
  intros H. unfold transform. destruct l as [|c l]; [contradiction|].
  simpl. now destruct (parse_field (c :: l)) as [[n v]|].
Qed.

Lemma build_cases (s : state) :
  build s =
  match jsonData s with
  | Some j => [mkEvent (or_undefined (lastEventId s)) (event s) j]
  | None => []
  end.
Proof. reflexivity. Qed.

Lemma build_id (s : state) :
  Forall (fun e => sse_id e = or_undefined (lastEventId s)) (build s).
Proof.
  rewrite build_cases. destruct (jsonData s); repeat constructor.
Qed.

Lemma jsonData_cases (s : state) :
  jsonData s =
  match data s with
  | [] => Some JNull
  | _ => JSON_parse (decode (joinArrays (data s)))
  end.
Proof.
  unfold jsonData, decodeArraysToJson.
  destruct (data s); [reflexivity|]. simpl.
  now destruct (JSON_parse _).
Qed.

Lemma feed_app (l1 l2 : list (list byte)) :
  forall s,
    feed s (l1 ++ l2) =
    let (s1, out1) := feed s l1 in
    let (s2, out2) := feed s1 l2 in
    (s2, out1 ++ out2).
Proof.
  induction l1 as [|l l1 IH]; intros s; simpl.
  - now destruct (feed s l2).
  - destruct (transform s l) as [s' o]. rewrite IH.
    destruct (feed s' l1) as [s1 o1]. destruct (feed s1 l2) as [s2 o2].
    now rewrite app_assoc.
Qed.

Lemma feed_nonblank (ls : list (list byte)) :
  forall s, Forall (fun l => l <> []) ls -> snd (feed s ls) = [].
Proof.
  induction ls as [|l ls IH]; intros s H; [reflexivity|].
  inversion H as [|? ? Hl Hls]. subst. simpl.
  pose proof (transform_nonblank s l Hl) as Ht.
  destruct (transform s l) as [s1 o1]. simpl in Ht. subst o1.
  specialize (IH s1 Hls). now destruct (feed s1 ls).
Qed.

(** ** The last event id *)

Lemma set_field_id (s : state) name value :
  (String.eqb name "id"
   && match indexOf value NULL with None => true | Some _ => false end)
  = false ->
  lastEventId (set_field s name value) = lastEventId s.
Proof.
  unfold set_field. intros H.
  destruct (String.eqb name "event"); [reflexivity|].
  destruct (String.eqb name "data"); [reflexivity|].
  destruct (String.eqb name "id").
  { destruct (indexOf value NULL); [reflexivity | discriminate]. }
  destruct (String.eqb name "retry"); [|reflexivity].
  now destruct (parseInt10 (decode value)).
Qed.

Lemma transform_keeps_id (s : state) (l : list byte) :
  sets_id l = false ->
  lastEventId (fst (transform s l)) = lastEventId s
  /\ Forall (fun e => sse_id e = or_undefined (lastEventId s))
            (snd (transform s l)).
Proof.
  intros H. destruct l as [|c l].
  - rewrite blank_state, blank_events. split; [reflexivity|].
    destruct (untouched s); [constructor | apply build_id].
  - unfold sets_id in H. unfold transform. simpl length. simpl Nat.eqb.
    cbv iota.
    destruct (parse_field (c :: l)) as [[n v]|]; simpl;
      [|split; [reflexivity | constructor]].
    split; [now apply set_field_id | constructor].
Qed.

Lemma feed_keeps_id (ls : list (list byte)) :
  forall s,
    Forall (fun l => sets_id l = false) ls ->
    lastEventId (fst (feed s ls)) = lastEventId s
    /\ Forall (fun e => sse_id e = or_undefined (lastEventId s))
              (snd (feed s ls)).
Proof.
  induction ls as [|l ls IH]; intros s H.
  - simpl. split; [reflexivity | constructor].
  - inversion H as [|? ? Hl Hls]. subst. simpl.
    destruct (transform_keeps_id s l Hl) as [Hid Hev].
    destruct (transform s l) as [s1 o1]. simpl in Hid, Hev.
    destruct (IH s1 Hls) as [Hid' Hev'].
    destruct (feed s1 ls) as [s2 o2]. simpl in *.
    split; [congruence|].
    apply Forall_app. split; [exact Hev|]. now rewrite <- Hid.
Qed.

Lemma flush_id (s : state) :
  Forall (fun e => sse_id e = or_undefined (lastEventId s)) (flush s).
Proof.
  unfold flush. destruct (negb (falsy (event s)));
    [apply build_id | constructor].
Qed.

Lemma run_from_keeps_id (ls : list (list byte)) (s : state) :
  Forall (fun l => sets_id l = false) ls ->
  Forall (fun e => sse_id e = or_undefined (lastEventId s)) (run_from s ls).
Proof.
  intros H. unfold run_from.
  destruct (feed_keeps_id ls s H) as [Hid Hev].
  destruct (feed s ls) as [s' out]. simpl in *.
  apply Forall_app. split; [exact Hev|].
  rewrite <- Hid. apply flush_id.
Qed.

Lemma run_from_cons (s : state) (l : list byte) (ls : list (list byte)) :
  run_from s (l :: ls)
  = snd (transform s l) ++ run_from (fst (transform s l)) ls.
Proof.
  unfold run_from. simpl. destruct (transform s l) as [s1 o1]. simpl.
  destruct (feed s1 ls) as [s2 o2]. now rewrite app_assoc.
Qed.

Lemma indexOf_none (a : list byte) (b : byte) :
  indexOf a b = None <-> ~ In b a.
Proof.
  induction a as [|c a IH]; simpl.
  - split; [intros _ [] | reflexivity].
  - destruct (Byte.eqb c b) eqn:E.
    + apply eqb_eq_byte in E.
      split; [discriminate | intros H; exfalso; apply H; now left].
    + apply Byte.eqb_false in E. destruct (indexOf a b) eqn:Ei.
      * split; [discriminate|]. intros H. exfalso.
        destruct (in_dec Byte.byte_eq_dec b a) as [Hin | Hnin].
        -- apply H. now right.
        -- apply IH in Hnin. discriminate.
      * split; [|reflexivity].
        intros _ [H | H]; [congruence | now apply IH].
Qed.

End WithPlatform.
End SSEProofs.

(** ** Claims about [SafeSSEDecoder] *)

Section SSEClaims.
Import SafeSSEDecoder.
Import SSEProofs.
Context {P : Platform}.

(** C2 (amended). On an empty line an event is enqueued exactly when
    something was accumulated ([event], [data], [lastEventId] or
    [retry] is set) and the data, if any, parses as JSON.  The event
    carries the accumulated [event] string, which may be empty. *)
Theorem C2_blank_line_dispatch (s : state) :
  (forall e,
      In e (snd (transform s [])) ->
      (event s <> EmptyString \/ data s <> []
       \/ lastEventId s <> EmptyString \/ retry s <> None)
      /\ sse_event e = event s
      /\ jsonData s = Some (sse_data e))
  /\ ((event s <> EmptyString \/ data s <> []
       \/ lastEventId s <> EmptyString \/ retry s <> None) ->
      forall j,
        jsonData s = Some j ->
        snd (transform s [])
        = [mkEvent (or_undefined (lastEventId s)) (event s) j])
  /\ (event s = EmptyString -> data s = [] ->
      lastEventId s = EmptyString -> retry s = None ->
      transform s [] = (s, [])).
Proof.
  rewrite blank_events, build_cases. repeat split.
  - destruct (untouched s) eqn:E; [contradiction|].
    now apply untouched_false.
  - destruct (untouched s); [contradiction|].
    destruct (jsonData s); [|contradiction].
    destruct H as [<- | []]. reflexivity.
  - destruct (untouched s); [contradiction|].
    destruct (jsonData s); [|contradiction].
    destruct H as [<- | []]. reflexivity.
  - intros H j Hj. apply untouched_false in H. now rewrite H, Hj.
  - intros He Hd Hi Hr. rewrite transform_blank.
    destruct (untouched s) eqn:E; [reflexivity|].
    apply untouched_false in E. tauto.
Qed.

(** C3 (amended). Data lines are appended to [data] in arrival order
    and nothing is enqueued; what goes to the JSON parser at dispatch
    is the decoded plain concatenation of the accumulated values, with
    nothing put between them. *)
Theorem C3_data_values_concatenated
        (s : state) (lines values : list (list byte)) :
  Forall2 (fun l v => parse_field l = Some ("data"%string, v))
          lines values ->
  feed s lines
  = ({| event := event s; data := data s ++ values;
        lastEventId := lastEventId s; retry := retry s |}, [])
  /\ (data s ++ values <> [] ->
      jsonData (fst (feed s lines))
      = JSON_parse (decode (concat (data s ++ values)))).
Proof.
  intros H.
  assert (Hfeed : feed s lines
                  = ({| event := event s; data := data s ++ values;
                        lastEventId := lastEventId s; retry := retry s |},
                     [])).
  { revert s. induction H as [|l v ls vs Hl _ IH]; intros s.
    - simpl. rewrite app_nil_r. now destruct s.
    - simpl. rewrite (transform_field s l _ _ Hl).
      unfold set_field at 1. simpl String.eqb. cbv iota.
      rewrite IH. simpl. now rewrite <- app_assoc. }
  split; [exact Hfeed|].
  intros Hne. rewrite Hfeed. simpl fst.
  rewrite jsonData_cases. simpl data.
  rewrite joinArrays_concat.
  now destruct (data s ++ values).
Qed.

(** C4. When the accumulated data does not parse as JSON, the blank
    line enqueues nothing and resets the accumulator; [flush] would
    enqueue nothing either; and the lines that follow are decoded as
    from a reset accumulator.  [transform] and [flush] are total: the
    [SyntaxError] of [JSON.parse] is caught in [decodeArraysToJson]. *)
Theorem C4_malformed_json_is_dropped
        (s : state) (rest : list (list byte)) :
  data s <> [] ->
  JSON_parse (decode (joinArrays (data s))) = None ->
  transform s [] = (reset s, [])
  /\ flush s = []
  /\ run_from s ([] :: rest) = run_from (reset s) rest.
Proof.
  intros Hd Hj.
  assert (Hu : untouched s = false) by (apply untouched_false; tauto).
  assert (Hb : build s = []).
  { rewrite build_cases, jsonData_cases, Hj. now destruct (data s). }
  assert (Ht : transform s [] = (reset s, []))
    by now rewrite transform_blank, Hu, Hb.
  repeat split.
  - exact Ht.
  - unfold flush. rewrite Hb. now destruct (negb _).
  - now rewrite run_from_cons, Ht.
Qed.

(** C6. After a blank line [event], [data] and [retry] have their
    initial values and [lastEventId] is what it was; as long as no
    [id] line without NUL comes, it stays so and every event enqueued,
    by a later blank line or by [flush], has [lastEventId || undefined]
    as its id. *)
Theorem C6_dispatch_keeps_last_event_id (s : state) :
  let s' := fst (transform s []) in
  event s' = EmptyString /\ data s' = [] /\ retry s' = None
  /\ lastEventId s' = lastEventId s
  /\ forall lines,
      Forall (fun l => sets_id l = false) lines ->
      lastEventId (fst (feed s' lines)) = lastEventId s
      /\ Forall (fun e => sse_id e = or_undefined (lastEventId s))
                (run_from s' lines).
Proof.
  simpl. rewrite blank_state. repeat split.
  - now destruct (feed_keeps_id lines (reset s) H).
  - apply (run_from_keeps_id lines (reset s) H).
Qed.

(** C7 (amended). With an [event] set, [flush] enqueues what the blank
    line would enqueue from the same accumulator: one event when there
    is no data or the data parses as JSON, none when parsing fails.
    Without an [event] it enqueues nothing.  Two blocks of lines
    separated by one blank line, the first of which dispatches an
    event and the second of which leaves an [event] set and data that
    parses, yield two events once flushed. *)
Theorem C7_flush_dispatches_pending_event (s : state) :
  (event s <> EmptyString -> flush s = snd (transform s []))
  /\ (event s <> EmptyString ->
      forall j,
        jsonData s = Some j ->
        flush s = [mkEvent (or_undefined (lastEventId s)) (event s) j])
  /\ (jsonData s = None -> flush s = [])
  /\ (event s = EmptyString -> flush s = [])
  /\ (forall first second e1 e2,
         Forall (fun l => l <> []) first ->
         Forall (fun l => l <> []) second ->
         let s1 := fst (feed s first) in
         let s2 := fst (feed (fst (transform s1 [])) second) in
         snd (transform s1 []) = [e1] ->
         event s2 <> EmptyString ->
         build s2 = [e2] ->
         run_from s (first ++ [] :: second) = [e1; e2]).
Proof.
  unfold flush. rewrite build_cases. repeat split.
  - intros He. rewrite blank_events, build_cases.
    assert (Hu : untouched s = false) by (apply untouched_false; tauto).
    apply falsy_false in He. now rewrite Hu, He.
  - intros He j Hj. apply falsy_false in He. now rewrite He, Hj.
  - intros ->. now destruct (negb _).
  - intros He. apply falsy_true in He. now rewrite He.
  - intros first second e1 e2 H1 H2 Hd He Hb.
    unfold run_from. rewrite feed_app. simpl feed.
    pose proof (feed_nonblank first s H1) as Ho1.
    destruct (feed s first) as [t1 o1] eqn:E1. simpl in Ho1. subst o1.
    simpl fst in *.
    destruct (transform t1 []) as [t1' ob] eqn:Et. simpl in Hd. subst ob.
    simpl fst in *.
    pose proof (feed_nonblank second t1' H2) as Ho2.
    destruct (feed t1' second) as [t2 o2] eqn:E2. simpl in Ho2. subst o2.
    simpl fst in *.
    unfold flush. apply falsy_false in He. rewrite He, Hb. reflexivity.
Qed.

(** C8. An [id] line whose value contains a NUL byte changes nothing:
    [lastEventId] keeps its value and the events enqueued afterwards
    carry it.  An [id] line without NUL assigns the decoded value to
    [lastEventId]. *)
Theorem C8_id_with_nul_is_ignored (s : state) (line value : list byte) :
  parse_field line = Some ("id"%string, value) ->
  (In NULL value ->
   transform s line = (s, [])
   /\ forall rest,
       Forall (fun l => sets_id l = false) rest ->
       Forall (fun e => sse_id e = or_undefined (lastEventId s))
              (run_from s (line :: rest)))
  /\ (~ In NULL value ->
      lastEventId (fst (transform s line)) = decode value).
Proof.
  intros Hp. rewrite (transform_field s line _ _ Hp).
  unfold set_field. simpl String.eqb. cbv iota. split.
  - intros Hin.
    destruct (indexOf value NULL) eqn:E;
      [|apply indexOf_none in E; contradiction].
    split; [reflexivity|].
    intros rest Hrest. rewrite run_from_cons.
    rewrite (transform_field s line _ _ Hp).
    unfold set_field. simpl String.eqb. cbv iota. rewrite E. simpl.
    now apply run_from_keeps_id.
  - intros Hnin. apply indexOf_none in Hnin. now rewrite Hnin.
Qed.

(** C10. A blank line on an accumulator whose data does not parse as
    JSON leaves exactly the accumulator a successful dispatch leaves:
    [event], [data] and [retry] initial and [lastEventId] retained.
    What follows is decoded from that accumulator, so nothing of the
    dropped event reaches a later one. *)
Theorem C10_failed_dispatch_resets (s : state) :
  data s <> [] ->
  JSON_parse (decode (joinArrays (data s))) = None ->
  let s' := fst (transform s []) in
  s' = {| event := EmptyString; data := [];
          lastEventId := lastEventId s; retry := None |}
  /\ (forall t j,
         lastEventId t = lastEventId s ->
         data t <> [] ->
         JSON_parse (decode (joinArrays (data t))) = Some j ->
         fst (transform t []) = s')
  /\ (forall t rest,
         lastEventId t = lastEventId s ->
         run_from s' rest = run_from (fst (transform t [])) rest).
Proof.
  intros Hd Hj. simpl. rewrite blank_state. repeat split.
  - intros t j Hid _ _. rewrite blank_state. unfold reset. now rewrite Hid.
  - intros t rest Hid. rewrite blank_state. unfold reset. now rewrite Hid.
Qed.

End SSEClaims.

(** ** The claim about the run metadata *)

Section DriverClaims.
Import Driver.
Context {P : Platform}.

Lemma calls_yield (events : list SafeSSEDecoder.SSEEvent) :
  calls (map Yield events) = [].
Proof. induction events as [|e events IH]; [reflexivity | exact IH]. Qed.

Lemma metadata_absent (h : option string) :
  h = None
  \/ (exists cl, h = Some cl /\ Regex.exec REGEX_RUN_METADATA cl = None) ->
  getRunMetadataFromResponse h = None.
Proof.
  intros [-> | (cl & -> & H)]; [reflexivity|].
  unfold getRunMetadataFromResponse. rewrite H. now destruct (falsy cl).
Qed.

(** C5. With the header [/threads/abc/runs/xyz] the generator calls
    [onRunCreated] once, with run id [xyz] and thread id [abc], before
    anything is yielded; with [/runs/xyz] the thread id is absent; with
    no header, or one the pattern does not match, it is not called. *)
Theorem C5_run_created_once_before_events
        (body : option (list (list byte))) :
  (let r := mkResponse (Some "/threads/abc/runs/xyz"%string) body in
   let m := {| run_id := "xyz"; thread_id := Some "abc"%string |} in
   stream true r = RunCreated m :: map Yield (decoded r)
   /\ calls (stream true r) = [m])
  /\ (let r := mkResponse (Some "/runs/xyz"%string) body in
      let m := {| run_id := "xyz"; thread_id := None |} in
      stream true r = RunCreated m :: map Yield (decoded r)
      /\ calls (stream true r) = [m])
  /\ (forall h,
         h = None
         \/ (exists cl,
                h = Some cl /\ Regex.exec REGEX_RUN_METADATA cl = None) ->
         let r := mkResponse h body in
         stream true r = map Yield (decoded r)
         /\ calls (stream true r) = []).
Proof.
  repeat split.
  - unfold stream, calls. simpl. f_equal. apply calls_yield.
  - unfold stream, calls. simpl. f_equal. apply calls_yield.
  - unfold stream. simpl contentLocation.
    now rewrite (metadata_absent h H).
  - unfold stream. simpl contentLocation.
    rewrite (metadata_absent h H). apply calls_yield.
Qed.

End DriverClaims.

(** ** The claims on concrete streams, with the reference platform *)

Section Examples.
Import SafeSSEDecoder.
Import Reference.

(** C2 as stated fails: the line [data: 1] followed by a blank line
    surfaces an event although [event] was never set. *)
Lemma C2_counterexample :
  ~ (forall (s : state) (e : SSEEvent),
        In e (snd (transform s [])) -> event s <> EmptyString).
Proof.
  intros H.
  apply (H (fst (feed initial [bytes "data: 1"]))
           (ref_event None EmptyString (Jnumber 1))).
  - now left.
  - reflexivity.
Qed.

Lemma C2_witness :
  snd (transform {| event := EmptyString; data := [bytes "1"];
                    lastEventId := EmptyString; retry := None |} [])
  = [ref_event None EmptyString (Jnumber 1)].
Proof.
  apply (proj1 (proj2 (C2_blank_line_dispatch
                         {| event := EmptyString; data := [bytes "1"];
                            lastEventId := EmptyString; retry := None |}))).
  - right. left. discriminate.
  - reflexivity.
Defined.

(** C3 as stated fails: after [data: 1] and [data: 2] the parser gets
    [12], not the two values with a line feed between them. *)
Lemma C3_counterexample :
  joinArrays (data (fst (feed initial [bytes "data: 1"; bytes "data: 2"])))
  = bytes "12"
  /\ joinArrays (data (fst (feed initial [bytes "data: 1"; bytes "data: 2"])))
     <> sse_spec_payload [bytes "1"; bytes "2"]
  /\ run [bytes "data: 1"; bytes "data: 2"; []]
     = [ref_event None EmptyString (Jnumber 12)].
Proof. repeat split. discriminate. Qed.

Lemma C3_witness :
  feed initial [bytes "data: 1"; bytes "data:2"]
  = ({| event := EmptyString; data := [bytes "1"; bytes "2"];
        lastEventId := EmptyString; retry := None |}, [])
  /\ jsonData (fst (feed initial [bytes "data: 1"; bytes "data:2"]))
     = Some (Jnumber 12).
Proof.
  destruct (C3_data_values_concatenated
              initial [bytes "data: 1"; bytes "data:2"]
              [bytes "1"; bytes "2"]) as [H1 H2].
  - repeat constructor.
  - split; [exact H1|]. rewrite H2; [reflexivity | discriminate].
Defined.

Lemma C4_witness :
  transform malformed [] = (reset malformed, [])
  /\ flush malformed = []
  /\ run_from malformed [[]; bytes "event: bar"; bytes "data: 1"; []]
     = run_from (reset malformed) [bytes "event: bar"; bytes "data: 1"; []].
Proof.
  apply (C4_malformed_json_is_dropped
           malformed [bytes "event: bar"; bytes "data: 1"; []]).
  - discriminate.
  - reflexivity.
Defined.

(** The stream [event: foo], [data: not-json], blank line, then a
    well-formed event: the first is dropped, the second comes out. *)
Example malformed_then_wellformed :
  Driver.decoded
    (Driver.mkResponse None
       (Some [bytes "event: foo" ++ [LF] ++ bytes "data: not-json" ++ [LF; LF];
              bytes "event: bar" ++ [CR; LF] ++ bytes "data: 1" ++ [CR];
              [LF; CR; LF]]))
  = [ref_event None "bar" (Jnumber 1)].
Proof. reflexivity. Qed.

Lemma C6_witness :
  Forall (fun e => sse_id e = Some "7"%string)
         (run_from (fst (transform malformed []))
                   [bytes "event: a"; bytes "id: a" ++ [NULL];
                    bytes "data: 2"; []; bytes "event: b"]).
Proof.
  apply (proj2 (proj2 (proj2 (proj2
           (C6_dispatch_keeps_last_event_id malformed))))).
  repeat constructor.
Defined.

(** C7 as stated fails: with an event type set and data that is not
    JSON, [flush] enqueues nothing. *)
Lemma C7_counterexample :
  ~ (forall s : state, event s <> EmptyString -> length (flush s) = 1).
Proof.
  intros H.
  specialize (H (fst (feed initial [bytes "event: foo";
                                    bytes "data: not-json"]))).
  simpl in H. discriminate H. discriminate.
Qed.

Lemma C7_witness :
  run [bytes "event: a"; bytes "data: 1"; []; bytes "event: b";
       bytes "data: 2"]
  = [ref_event None "a" (Jnumber 1); ref_event None "b" (Jnumber 2)].
Proof.
  apply (proj2 (proj2 (proj2 (proj2
           (C7_flush_dispatches_pending_event initial))))
           [bytes "event: a"; bytes "data: 1"]
           [bytes "event: b"; bytes "data: 2"]).
  - repeat constructor; discriminate.
  - repeat constructor; discriminate.
  - reflexivity.
  - discriminate.
  - reflexivity.
Defined.

Lemma C8_witness :
  transform malformed (bytes "id: a" ++ [NULL] ++ bytes "b")
  = (malformed, [])
  /\ lastEventId (fst (transform malformed (bytes "id: 8"))) = "8"%string.
Proof.
  split.
  - destruct (C8_id_with_nul_is_ignored
                (P := platform)
                malformed (bytes "id: a" ++ [NULL] ++ bytes "b")
                (bytes "a" ++ [NULL] ++ bytes "b")) as [H _];
      [reflexivity|].
    apply H. simpl. tauto.
  - destruct (C8_id_with_nul_is_ignored
                (P := platform)
                malformed (bytes "id: 8") (bytes "8")) as [_ H];
      [reflexivity|].
    apply H. simpl. intros [H1 | []]. discriminate H1.
Defined.

Lemma C10_witness :
  fst (transform malformed [])
  = {| event := EmptyString; data := [];
       lastEventId := "7"; retry := None |}.
Proof.
  apply (C10_failed_dispatch_resets malformed).
  - discriminate.
  - reflexivity.
Defined.

Lemma C5_witness :
  Driver.stream true (Driver.mkResponse (Some "/assistants/xyz"%string)
                                        (Some [bytes "data: 1"; [LF; LF]]))
  = [Driver.Yield (ref_event None EmptyString (Jnumber 1))].
Proof.
  destruct (proj2 (proj2 (C5_run_created_once_before_events
                            (P := platform)
                            (Some [bytes "data: 1"; [LF; LF]])))
                  (Some "/assistants/xyz"%string)) as [H _].
  - right. exists "/assistants/xyz"%string. split; reflexivity.
  - rewrite H. reflexivity.
Defined.

End Examples.

(** * Further properties *)

(** ** [joinArrays] *)

Lemma total_length_from (data : list (list byte)) :
  forall n,
    fold_left (fun acc curr => acc + length curr) data n
    = n + length (joinArrays data).
Proof.
  induction data as [|c data IH]; intros n; simpl.
  - lia.
  - rewrite IH, length_app. lia.
Qed.

Lemma join_loop_fills (data : list (list byte)) :
  forall done,
    join_loop data (done ++ repeat x00 (length (joinArrays data)))
              (length done)
    = Some (done ++ joinArrays data).
Proof.
  induction data as [|c data IH]; intros done; simpl.
  - reflexivity.
  - unfold set_at.
    replace (length done + length c <=?
             length (done ++ repeat x00 (length (c ++ joinArrays data))))
      with true
      by (symmetry; apply Nat.leb_le;
          repeat rewrite ?length_app, ?repeat_length; lia).
    rewrite firstn_app, firstn_all, Nat.sub_diag. simpl firstn.
    rewrite app_nil_r.
    rewrite skipn_app, skipn_all2 by lia.
    replace (length done + length c - length done) with (length c) by lia.
    rewrite length_app, repeat_app, skipn_app, repeat_length.
    rewrite skipn_all2 by (rewrite repeat_length; lia).
    rewrite Nat.sub_diag. simpl.
    specialize (IH (done ++ c)).
    rewrite length_app, <- !app_assoc in IH. exact IH.
Qed.

(** X1. The loop of [joinArrays] never writes outside the array it
    allocated, and returns the arrays one after another, in order; the
    total length it computes is the length of the result. *)
Theorem X1_joinArrays_loop_concatenates (data : list (list byte)) :
  joinArrays_loop data = Some (concat data)
  /\ total_length data = length (concat data).
Proof.
  assert (Ht : total_length data = length (joinArrays data)).
  { unfold total_length. now rewrite total_length_from. }
  rewrite <- joinArrays_concat. split; [|exact Ht].
  unfold joinArrays_loop. rewrite Ht.
  apply (join_loop_fills data []).
Qed.

(** ** [BytesLineDecoder]: what the lines are *)

Module LineExtras.
Import BytesLineDecoder.
Import LineProofs.

Lemma no_nl_app (a b : list byte) : no_nl a -> no_nl b -> no_nl (a ++ b).
Proof. intros Ha Hb. apply Forall_app. now split. Qed.

Lemma split_no_nl (text : list byte) :
  forall k cur ls r,
    no_nl cur ->
    split k cur text = (ls, r) ->
    Forall no_nl ls /\ no_nl r.
Proof.
  induction text as [|c text IH]; intros k cur ls r Hc; simpl.
  - intros [= <- <-]. split; [constructor | exact Hc].
  - destruct (k && Byte.eqb c LF); [now apply IH|].
    destruct (Byte.eqb c CR) eqn:Ecr.
    { destruct (split true [] text) as [ls' r'] eqn:Es. intros [= <- <-].
      destruct (IH true [] ls' r' ltac:(constructor) Es) as [H1 H2].
      split; [constructor; assumption | exact H2]. }
    destruct (Byte.eqb c LF) eqn:Elf.
    { destruct (split false [] text) as [ls' r'] eqn:Es. intros [= <- <-].
      destruct (IH false [] ls' r' ltac:(constructor) Es) as [H1 H2].
      split; [constructor; assumption | exact H2]. }
    apply IH. apply no_nl_app; [exact Hc|].
    constructor; [|constructor].
    unfold includes, TRAILING_NEWLINE. simpl. now rewrite Ecr, Elf.
Qed.

Lemma no_nl_not_in (l : list byte) : no_nl l <-> ~ In CR l /\ ~ In LF l.
Proof.
  unfold no_nl. rewrite Forall_forall. split.
  - intros H. split; intros Hin; apply H in Hin; discriminate Hin.
  - intros [Hcr Hlf] b Hb. unfold includes, TRAILING_NEWLINE. simpl.
    destruct (Byte.eqb b CR) eqn:E1.
    { apply eqb_eq_byte in E1. now subst b. }
    destruct (Byte.eqb b LF) eqn:E2.
    { apply eqb_eq_byte in E2. now subst b. }
    reflexivity.
Qed.

Lemma tail_line_no_nl (r : list byte) : no_nl r -> Forall no_nl (tail_line r).
Proof.
  intros H. destruct r; simpl; [constructor|].
  constructor; [exact H | constructor].
Qed.

(** X2. Whatever the chunks, no line that comes out, from [transform] or
    from [flush], contains a carriage return or a line feed. *)
Theorem X2_lines_have_no_terminator (chunks : list (list byte)) :
  Forall (fun line => ~ In CR line /\ ~ In LF line) (run chunks).
Proof.
  rewrite run_step. unfold step. simpl fst. simpl snd.
  destruct (strip_cr (held false ++ concat chunks)) as [t cr'].
  destruct (split false [] t) as [ls r] eqn:Es.
  destruct (split_no_nl t false [] ls r ltac:(constructor) Es) as [H1 H2].
  simpl fst. apply Forall_app. split.
  - eapply Forall_impl; [|exact H1]. intros l. apply no_nl_not_in.
  - eapply Forall_impl; [|exact (tail_line_no_nl r H2)].
    intros l. apply no_nl_not_in.
Qed.

Lemma no_nl_pieces (b : list (list byte)) :
  no_nl (joinArrays b) -> Forall no_nl b.
Proof.
  induction b as [|x b IH]; simpl; intros H; [constructor|].
  apply Forall_app in H as [Hx Hb]. constructor; [exact Hx | now apply IH].
Qed.

(** X3. After any sequence of chunks, every array kept in [buffer] is
    non-empty and free of line terminators, [buffer] is empty whenever
    the bytes fed so far end with a line feed, and [trailingCr] is set
    exactly when they end with a carriage return. *)
Theorem X3_buffer_invariant (chunks : list (list byte)) :
  let s := fst (feed start chunks) in
  Forall (fun piece => piece <> [] /\ ~ In CR piece /\ ~ In LF piece)
         (buffer s)
  /\ (at_last (concat chunks) = Some LF -> buffer s = [])
  /\ trailingCr s = opt_is (at_last (concat chunks)) CR.
Proof.
  destruct (feed_step chunks start wf_start) as (s' & out & Hf & Hs & Hwf).
  rewrite Hf. simpl fst.
  unfold step, pending_of in Hs. simpl fst in Hs. simpl snd in Hs.
  destruct (strip_cr (held false ++ concat chunks)) as [t cr'] eqn:Est.
  destruct (split false [] t) as [ls r] eqn:Es.
  injection Hs as Hout Hr Hcr.
  destruct (split_no_nl t false [] ls r ltac:(constructor) Es) as [_ H2].
  split; [|split].
  - rewrite Hr in H2. apply no_nl_pieces in H2.
    unfold wf in Hwf. rewrite Forall_forall in *.
    intros piece Hin. split; [now apply Hwf|].
    apply no_nl_not_in. now apply H2.
  - intros Hlast. simpl in Est. unfold strip_cr in Est.
    rewrite Hlast in Est. simpl in Est. injection Est as <- <-.
    pose proof (split_rest _ false [] ls r ltac:(discriminate) Es) as Hrest.
    rewrite Hlast in Hrest. simpl in Hrest. rewrite Hrest in Hr.
    unfold wf in Hwf.
    destruct (buffer s') as [|x b]; [reflexivity|].
    inversion Hwf as [|? ? Hx Hb]. simpl in Hr.
    destruct x; [contradiction | discriminate].
  - rewrite <- Hcr. simpl in Est. unfold strip_cr in Est.
    destruct (opt_is (at_last (concat chunks)) CR); now injection Est.
Qed.

Lemma split_plain (l : list byte) :
  forall cur rest,
    no_nl l ->
    split false cur (l ++ rest) = split false (cur ++ l) rest.
Proof.
  induction l as [|c l IH]; intros cur rest H; simpl.
  - now rewrite app_nil_r.
  - inversion H as [|? ? Hc Hl]. subst.
    unfold includes, TRAILING_NEWLINE in Hc. simpl in Hc.
    destruct (Byte.eqb c CR); [discriminate|].
    destruct (Byte.eqb c LF); [discriminate|].
    rewrite IH by exact Hl. now rewrite <- app_assoc.
Qed.

Lemma split_encode (ls : list (list byte * bool)) :
  Forall no_nl (map fst ls) ->
  split false [] (encode_lines ls) = (map fst ls, []).
Proof.
  induction ls as [|[l crlf] ls IH]; intros H; [reflexivity|].
  inversion H as [|? ? Hl Hls]. subst.
  unfold encode_lines. simpl flat_map. fold (encode_lines ls).
  rewrite <- app_assoc, split_plain by exact Hl.
  destruct crlf; simpl; rewrite (IH Hls); reflexivity.
Qed.

Lemma encode_last (ls : list (list byte * bool)) :
  ls <> [] -> at_last (encode_lines ls) = Some LF.
Proof.
  intros Hne. destruct (exists_last Hne) as (ls' & [l crlf] & ->).
  unfold encode_lines. rewrite flat_map_app. simpl flat_map.
  rewrite app_nil_r.
  destruct crlf; simpl snd; cbv iota.
  - now rewrite app_assoc, (app_assoc _ [CR] [LF]), at_last_app.
  - now rewrite app_assoc, at_last_app.
Qed.

Lemma run_encoded (ls : list (list byte * bool)) (chunks : list (list byte)) :
  Forall no_nl (map fst ls) ->
  concat chunks = encode_lines ls ->
  run chunks = map fst ls
  /\ snd (feed start chunks) = map fst ls.
Proof.
  intros Hnl Hc.
  assert (Hstep : step ([], false) (concat chunks)
                  = (map fst ls, ([], false))).
  { unfold step. simpl fst. simpl snd.
    change (held false ++ concat chunks) with (concat chunks).
    rewrite Hc. unfold strip_cr.
    destruct ls as [|x ls']; [reflexivity|].
    rewrite (encode_last (x :: ls')) by discriminate.
    change (opt_is (Some LF) CR) with false. cbv iota.
    now rewrite (split_encode (x :: ls') Hnl). }
  split.
  - rewrite run_step, Hstep. simpl. apply app_nil_r.
  - destruct (feed_step chunks start wf_start) as (s' & out & Hf & Hs & _).
    change (pending_of start) with (@nil byte, false) in Hs.
    rewrite Hf. simpl. congruence.
Qed.

(** X4. Lines free of terminators, written out each followed by a line
    feed or by a carriage return and a line feed, come back exactly, in
    order and all from [transform], however the bytes are cut into
    chunks. *)
Theorem X4_round_trip
        (ls : list (list byte * bool)) (chunks : list (list byte)) :
  Forall (fun l => ~ In CR l /\ ~ In LF l) (map fst ls) ->
  concat chunks = encode_lines ls ->
  run chunks = map fst ls
  /\ snd (feed start chunks) = map fst ls.
Proof.
  intros Hls Hc. apply run_encoded; [|exact Hc].
  eapply Forall_impl; [|exact Hls]. intros l. apply no_nl_not_in.
Qed.

(** X5. Chunks without any terminator only accumulate: [transform]
    enqueues nothing, and [flush] enqueues all the bytes as one line,
    when there are any. *)
Theorem X5_no_terminator_no_line (chunks : list (list byte)) :
  Forall (fun c => ~ In CR c /\ ~ In LF c) chunks ->
  snd (feed start chunks) = []
  /\ run chunks = tail_line (concat chunks).
Proof.
  intros H.
  assert (Hnl : no_nl (concat chunks)).
  { induction H as [|c cs Hc _ IH]; [constructor|].
    simpl. apply no_nl_app; [now apply no_nl_not_in | exact IH]. }
  assert (Hstep : step ([], false) (concat chunks)
                  = ([], (concat chunks, false))).
  { unfold step. simpl fst. simpl snd.
    change (held false ++ concat chunks) with (concat chunks).
    unfold strip_cr.
    assert (Hl : opt_is (at_last (concat chunks)) CR = false).
    { destruct (at_last (concat chunks)) as [b|] eqn:E; [|reflexivity].
      simpl. destruct (Byte.eqb b CR) eqn:Eb; [|reflexivity].
      apply eqb_eq_byte in Eb. subst b.
      assert (Hne : concat chunks <> []) by (intros E'; now rewrite E' in E).
      destruct (exists_last Hne) as (l' & d & El). rewrite El in *.
      rewrite at_last_app in E. injection E as ->.
      apply no_nl_not_in in Hnl. destruct Hnl as [Hcr _].
      exfalso. apply Hcr. apply in_or_app. right. now left. }
    rewrite Hl.
    pose proof (split_plain (concat chunks) [] [] Hnl) as Hs.
    rewrite app_nil_r in Hs. now rewrite Hs. }
  split.
  - destruct (feed_step chunks start wf_start) as (s' & out & Hf & Hs & _).
    change (pending_of start) with (@nil byte, false) in Hs.
    rewrite Hf. simpl. congruence.
  - now rewrite run_step, Hstep.
Qed.

Lemma terminator_bytes_app (a b : list byte) :
  terminator_bytes (a ++ b) = terminator_bytes a + terminator_bytes b.
Proof.
  unfold terminator_bytes. now rewrite filter_app, length_app.
Qed.

Lemma split_count (text : list byte) :
  forall k cur ls r,
    split k cur text = (ls, r) -> length ls <= terminator_bytes text.
Proof.
  induction text as [|c text IH]; intros k cur ls r; simpl split.
  - intros [= <- <-]. simpl. lia.
  - change (terminator_bytes (c :: text))
      with (terminator_bytes ([c] ++ text)).
    rewrite terminator_bytes_app.
    unfold terminator_bytes at 1, includes, TRAILING_NEWLINE. simpl filter.
    destruct (k && Byte.eqb c LF).
    { intros H. apply IH in H. lia. }
    destruct (Byte.eqb c CR).
    { destruct (split true [] text) as [ls' r'] eqn:Es. intros [= <- <-].
      apply IH in Es. simpl. lia. }
    destruct (Byte.eqb c LF).
    { destruct (split false [] text) as [ls' r'] eqn:Es. intros [= <- <-].
      apply IH in Es. simpl. lia. }
    intros H. apply IH in H. simpl. lia.
Qed.

(** X19. [transform] never enqueues more lines than there are carriage
    return and line feed bytes in what it was fed, and [flush] adds at
    most one line. *)
Theorem X19_lines_bounded_by_terminators (chunks : list (list byte)) :
  length (snd (feed start chunks)) <= terminator_bytes (concat chunks)
  /\ length (run chunks) <= terminator_bytes (concat chunks) + 1.
Proof.
  destruct (feed_step chunks start wf_start) as (s' & out & Hf & Hs & Hwf).
  rewrite run_step. rewrite Hf. simpl snd.
  change (pending_of start) with (@nil byte, false) in Hs. rewrite Hs.
  unfold step in Hs. simpl fst in Hs. simpl snd in Hs.
  change (held false ++ concat chunks) with (concat chunks) in Hs.
  destruct (strip_cr (concat chunks)) as [t cr'] eqn:Est.
  destruct (split false [] t) as [ls r] eqn:Es.
  injection Hs as <- _ _.
  apply split_count in Es.
  apply strip_cr_spec in Est as [Ht _].
  rewrite Ht, terminator_bytes_app.
  rewrite length_app.
  assert (length (tail_line (fst (pending_of s'))) <= 1)
    by (destruct (fst (pending_of s')); simpl; lia).
  lia.
Qed.

End LineExtras.

(** ** [SafeSSEDecoder]: lines and fields *)

Module SSEExtras.
Import SafeSSEDecoder.
Import SSEProofs.
Section WithPlatform.
Context {P : Platform}.

Lemma indexOf_first (name rest : list byte) (b : byte) :
  ~ In b name -> indexOf (name ++ b :: rest) b = Some (length name).
Proof.
  induction name as [|c name IH]; intros H; simpl.
  - now rewrite eqb_refl_byte.
  - destruct (Byte.eqb c b) eqn:E.
    + apply eqb_eq_byte in E. subst c. exfalso. apply H. now left.
    + rewrite IH; [reflexivity|]. intros Hin. apply H. now right.
Qed.

Lemma parse_field_split (name rest : list byte) :
  name <> [] ->
  ~ In COLON name ->
  parse_field (name ++ COLON :: rest)
  = Some (decode name,
          if opt_is (nth_error rest 0) SPACE
          then subarray_from rest 1 else rest).
Proof.
  intros Hne Hin. unfold parse_field.
  destruct name as [|c name']; [contradiction|].
  assert (Hc : Byte.eqb c COLON = false).
  { destruct (Byte.eqb c COLON) eqn:E; [|reflexivity].
    apply eqb_eq_byte in E. subst c. exfalso. apply Hin. now left. }
  simpl nth_error at 1. simpl opt_is at 1. rewrite Hc.
  rewrite (indexOf_first (c :: name') rest COLON Hin).
  set (name := c :: name') in *.
  assert (H1 : subarray (name ++ COLON :: rest) 0 (length name) = name)
    by apply (subarray_middle [] name (COLON :: rest)).
  assert (H2 : subarray_from (name ++ COLON :: rest) (length name + 1)
               = rest).
  { replace (name ++ COLON :: rest) with ((name ++ [COLON]) ++ rest)
      by now rewrite <- app_assoc.
    replace (length name + 1) with (length (name ++ [COLON]))
      by (rewrite length_app; reflexivity).
    apply subarray_from_app. }
  now rewrite H1, H2.
Qed.

(** X6. A non-empty line that starts with a colon, has no colon at all,
    or carries a field whose decoded name is none of [event], [data],
    [id] and [retry], changes nothing and enqueues nothing. *)
Theorem X6_ignored_lines (s : state) (line : list byte) :
  line <> [] ->
  hd_error line = Some COLON
  \/ ~ In COLON line
  \/ (exists name value,
         parse_field line = Some (name, value)
         /\ name <> "event"%string /\ name <> "data"%string
         /\ name <> "id"%string /\ name <> "retry"%string) ->
  transform s line = (s, []).
Proof.
  intros Hne [H | [H | (name & value & Hp & H1 & H2 & H3 & H4)]].
  - unfold transform. destruct line as [|c line']; [contradiction|].
    injection H as ->. unfold parse_field. simpl. reflexivity.
  - unfold transform. destruct line as [|c line']; [contradiction|].
    simpl length. simpl Nat.eqb. cbv iota.
    assert (Hp : parse_field (c :: line') = None); [|now rewrite Hp].
    unfold parse_field. simpl nth_error. simpl opt_is.
    destruct (Byte.eqb c COLON) eqn:E; [reflexivity|].
    apply indexOf_none in H. now rewrite H.
  - rewrite (transform_field s line _ _ Hp). unfold set_field.
    apply String.eqb_neq in H1, H2, H3, H4.
    now rewrite H1, H2, H3, H4.
Qed.

(** X7. A field line is read back as written: the name, a colon, at
    most one space, the value.  One space after the colon is dropped and
    no more; without a space the value starts right after the colon. *)
Theorem X7_field_line_round_trip (name value : list byte) :
  name <> [] ->
  ~ In COLON name ->
  parse_field (name ++ [COLON; SPACE] ++ value) = Some (decode name, value)
  /\ (hd_error value <> Some SPACE ->
      parse_field (name ++ [COLON] ++ value) = Some (decode name, value)).
Proof.
  intros Hne Hin. split.
  - change (name ++ [COLON; SPACE] ++ value)
      with (name ++ COLON :: SPACE :: value).
    now rewrite parse_field_split.
  - intros Hsp.
    change (name ++ [COLON] ++ value) with (name ++ COLON :: value).
    rewrite parse_field_split by assumption.
    destruct value as [|c v]; [reflexivity|].
    simpl. destruct (Byte.eqb c SPACE) eqn:E; [|reflexivity].
    apply eqb_eq_byte in E. now subst c.
Qed.

(** X8. A blank line that follows a dispatch at once enqueues nothing as
    long as no event id was ever set; once one was, it enqueues an event
    with that id, an empty event type and [null] data, and so does every
    further blank line. *)
Theorem X8_blank_line_after_dispatch (s : state) :
  let s' := fst (transform s []) in
  transform s' [] =
  (s', if falsy (lastEventId s) then []
       else [mkEvent (Some (lastEventId s)) EmptyString JNull]).
Proof.
  simpl. rewrite blank_state, transform_blank.
  unfold untouched, reset, build, jsonData, or_undefined. simpl.
  now destruct (falsy (lastEventId s)).
Qed.

(** X9. A [retry] value that [parseInt] rejects changes nothing.  One it
    accepts counts as accumulated content: on a fresh decoder, the retry
    line and a blank line enqueue an event with empty type, no id and
    [null] data. *)
Theorem X9_retry_line
        (s : state) (line value : list byte) :
  parse_field line = Some ("retry"%string, value) ->
  (parseInt10 (decode value) = None -> transform s line = (s, []))
  /\ (forall n,
         parseInt10 (decode value) = Some n ->
         retry (fst (transform s line)) = Some n
         /\ feed initial [line; []]
            = (initial, [mkEvent None EmptyString JNull])).
Proof.
  intros Hp. split.
  - intros Hn. rewrite (transform_field s line _ _ Hp).
    unfold set_field. simpl String.eqb. cbv iota. now rewrite Hn.
  - intros n Hn. split.
    + rewrite (transform_field s line _ _ Hp).
      unfold set_field. simpl String.eqb. cbv iota. now rewrite Hn.
    + simpl feed. rewrite (transform_field initial line _ _ Hp).
      unfold set_field. simpl String.eqb. cbv iota. rewrite Hn.
      reflexivity.
Qed.

Lemma build_length (s : state) : length (build s) <= 1.
Proof. rewrite build_cases. destruct (jsonData s); simpl; lia. Qed.

Lemma transform_length (s : state) (l : list byte) :
  length (snd (transform s l)) <= if length l =? 0 then 1 else 0.
Proof.
  destruct l as [|c l].
  - rewrite blank_events. destruct (untouched s); simpl; [lia|].
    apply build_length.
  - rewrite transform_nonblank by discriminate. simpl. lia.
Qed.

Lemma feed_length (ls : list (list byte)) :
  forall s, length (snd (feed s ls)) <= blank_lines ls.
Proof.
  induction ls as [|l ls IH]; intros s; [simpl; lia|].
  simpl feed. pose proof (transform_length s l) as Ht.
  destruct (transform s l) as [s1 o1]. specialize (IH s1).
  destruct (feed s1 ls) as [s2 o2]. simpl in *.
  rewrite length_app. unfold blank_lines in *. simpl filter.
  destruct (length l =? 0); simpl; lia.
Qed.

(** X10. There are never more events than dispatch triggers: [transform]
    enqueues at most one event per blank line and none on other lines,
    and [flush] at most one more. *)
Theorem X10_events_bounded_by_blank_lines
        (s : state) (lines : list (list byte)) :
  length (snd (feed s lines)) <= blank_lines lines
  /\ length (run_from s lines) <= blank_lines lines + 1.
Proof.
  split; [apply feed_length|].
  unfold run_from. pose proof (feed_length lines s) as H.
  destruct (feed s lines) as [s' out]. simpl in H.
  rewrite length_app.
  assert (length (flush s') <= 1).
  { unfold flush. destruct (negb _); [apply build_length | simpl; lia]. }
  lia.
Qed.

End WithPlatform.
End SSEExtras.

(** ** The two decoders together *)

Section PipelineExtras.
Import SafeSSEDecoder.
Import SSEProofs.
Context {P : Platform}.




Lemma feed_cons (s : state) (l : list byte) (ls : list (list byte)) :
  feed s (l :: ls) =
  let (s1, out1) := transform s l in
  let (s2, out2) := feed s1 ls in
  (s2, out1 ++ out2).
Proof. reflexivity. Qed.

Lemma event_lines_dispatch (e d : list byte) (j : JSON) :
  decode (list_byte_of_string "event") = "event"%string ->
  decode (list_byte_of_string "data") = "data"%string ->
  JSON_parse (decode d) = Some j ->
  feed initial (event_lines e d)
  = (initial, [mkEvent None (decode e) j]).
Proof.
  intros He Hd Hj. unfold event_lines.
  assert (H1 : parse_field (list_byte_of_string "event: " ++ e)
               = Some ("event"%string, e)).
  { change (list_byte_of_string "event: " ++ e)
      with (list_byte_of_string "event" ++ COLON :: SPACE :: e).
    rewrite SSEExtras.parse_field_split; [now rewrite He | discriminate |].
    simpl. intuition discriminate. }
  assert (H2 : parse_field (list_byte_of_string "data: " ++ d)
               = Some ("data"%string, d)).
  { change (list_byte_of_string "data: " ++ d)
      with (list_byte_of_string "data" ++ COLON :: SPACE :: d).
    rewrite SSEExtras.parse_field_split; [now rewrite Hd | discriminate |].
    simpl. intuition discriminate. }
  rewrite feed_cons, (transform_field initial _ _ _ H1).
  unfold set_field at 1. simpl String.eqb. cbv iota.
  rewrite feed_cons, (transform_field _ _ _ _ H2).
  unfold set_field at 1. simpl String.eqb. cbv iota.
  rewrite feed_cons, transform_blank. unfold untouched. simpl.
  rewrite andb_false_r. simpl.
  unfold build, jsonData, decodeArraysToJson. simpl.
  now rewrite (app_nil_r d), Hj.
Qed.

Lemma events_round_trip (evs : list (list byte * list byte * JSON)) :
  decode (list_byte_of_string "event") = "event"%string ->
  decode (list_byte_of_string "data") = "data"%string ->
  Forall (fun ev => JSON_parse (decode (snd (fst ev))) = Some (snd ev)) evs ->
  feed initial (flat_map (fun ev => event_lines (fst (fst ev)) (snd (fst ev)))
                         evs)
  = (initial,
     map (fun ev => mkEvent None (decode (fst (fst ev))) (snd ev)) evs).
Proof.
  intros He Hd H. induction H as [|[[e d] j] evs Hj _ IH]; [reflexivity|].
  cbn [flat_map map fst snd] in *. rewrite feed_app.
  rewrite (event_lines_dispatch e d j He Hd Hj), IH. reflexivity.
Qed.

(** X12. A stream of events, each written as an [event:] line, a [data:]
    line whose value parses as JSON and a blank line, with line feeds or
    carriage return and line feed pairs as terminators, is decoded into
    exactly these events, in order, however the body is cut into chunks.
    The decoder of the platform is supposed to read the ASCII field
    names [event] and [data] as themselves. *)
Theorem X12_event_stream_round_trip
        (evs : list (list byte * list byte * JSON)) (crlf : bool)
        (h : option string) (chunks : list (list byte)) :
  decode (list_byte_of_string "event") = "event"%string ->
  decode (list_byte_of_string "data") = "data"%string ->
  Forall (fun ev =>
            (~ In CR (fst (fst ev)) /\ ~ In LF (fst (fst ev)))
            /\ (~ In CR (snd (fst ev)) /\ ~ In LF (snd (fst ev)))
            /\ JSON_parse (decode (snd (fst ev))) = Some (snd ev)) evs ->
  concat chunks
  = encode_lines
      (map (fun l => (l, crlf))
           (flat_map (fun ev => event_lines (fst (fst ev)) (snd (fst ev)))
                     evs)) ->
  Driver.decoded (Driver.mkResponse h (Some chunks))
  = map (fun ev => mkEvent None (decode (fst (fst ev))) (snd ev)) evs.
Proof.
  intros He Hd Hevs Hc.
  set (ls := flat_map (fun ev => event_lines (fst (fst ev)) (snd (fst ev)))
                      evs) in *.
  assert (Hlines : BytesLineDecoder.run chunks = ls).
  { destruct (LineExtras.run_encoded (map (fun l => (l, crlf)) ls) chunks)
      as [Hr _]; [| exact Hc |].
    - rewrite map_map. simpl. rewrite map_id. subst ls.
      clear Hc. induction Hevs as [|[[e d] j] evs' Hev _ IH];
        [constructor|].
      cbn [fst snd] in Hev. destruct Hev as (Hne & Hnd & _).
      cbn [flat_map fst snd]. unfold event_lines at 1.
      apply LineExtras.no_nl_not_in in Hne, Hnd.
      apply Forall_app. split; [|exact IH].
      constructor; [|constructor; [|constructor; constructor]].
      + apply LineExtras.no_nl_app; [|exact Hne].
        repeat constructor.
      + apply LineExtras.no_nl_app; [|exact Hnd].
        repeat constructor.
    - rewrite Hr, map_map. simpl. apply map_id. }
  change (Driver.decoded (Driver.mkResponse h (Some chunks)))
    with (run (BytesLineDecoder.run chunks)).
  rewrite Hlines. unfold run, run_from. subst ls.
  rewrite (events_round_trip evs He Hd).
  - apply app_nil_r.
  - eapply Forall_impl; [|exact Hevs]. intros ev Hev. apply Hev.
Qed.

End PipelineExtras.

(** ** The regular expression and the run metadata *)

Module RegexExtras.
Import Regex.

#[local] Infix "+++" := String.append (at level 60, right associativity).

Lemma append_nil_r (s : string) : s +++ EmptyString = s.
Proof. induction s as [|c s IH]; simpl; congruence. Qed.

Lemma append_assoc (a b c : string) : (a +++ b) +++ c = a +++ (b +++ c).
Proof. induction a as [|x a IH]; simpl; congruence. Qed.

Lemma length_append (a b : string) :
  String.length (a +++ b) = String.length a + String.length b.
Proof. induction a as [|x a IH]; simpl; congruence. Qed.

Lemma take_append (a b : string) :
  take (String.length (a +++ b) - String.length b) (a +++ b) = a.
Proof.
  rewrite length_append.
  replace (String.length a + String.length b - String.length b)
    with (String.length a) by lia.
  induction a as [|x a IH]; simpl.
  - now destruct b.
  - now rewrite IH.
Qed.

Lemma strip_prefix_some (l : string) :
  forall s s', strip_prefix l s = Some s' -> s = l +++ s'.
Proof.
  induction l as [|a l IH]; intros s s'; simpl.
  - now intros [= ->].
  - destruct s as [|b s]; [discriminate|].
    destruct (Ascii.eqb a b) eqn:E; [|discriminate].
    apply Ascii.eqb_eq in E. subst b. intros H. now rewrite (IH _ _ H).
Qed.

Lemma strip_prefix_append (l s : string) : strip_prefix l (l +++ s) = Some s.
Proof.
  induction l as [|a l IH]; simpl; [reflexivity|].
  now rewrite Ascii.eqb_refl.
Qed.

Lemma dot_string_append (a b : string) :
  dot_string (a +++ b) = dot_string a && dot_string b.
Proof.
  induction a as [|x a IH]; simpl; [reflexivity|].
  now rewrite IH, andb_assoc.
Qed.

(** *** The greedy [.+] *)

Lemma dot_plus_sound {R} (s : string) (k : string -> option R) :
  forall r,
    dot_plus s k = Some r ->
    exists a s',
      s = a +++ s' /\ a <> EmptyString /\ dot_string a = true
      /\ k s' = Some r.
Proof.
  induction s as [|c s IH]; intros r; simpl; [discriminate|].
  destruct (is_line_terminator c) eqn:Ec; [discriminate|].
  destruct (dot_plus s k) as [r'|] eqn:E.
  - intros [= <-]. destruct (IH r' eq_refl) as (a & s' & -> & Ha & Hd & Hk).
    exists (String c a), s'. simpl. rewrite Ec, Hd.
    repeat split; [discriminate | exact Hk].
  - intros Hk. exists (String c EmptyString), s. simpl. rewrite Ec.
    repeat split; [discriminate | exact Hk].
Qed.

Lemma dot_plus_total_none {R} (s : string) (f : string -> R) :
  dot_plus s (fun x => Some (f x)) = None -> dot_stops s.
Proof.
  destruct s as [|c s]; simpl; [trivial|].
  destruct (is_line_terminator c); [reflexivity|].
  now destruct (dot_plus s _).
Qed.

(** With a continuation that always succeeds, [.+] takes the longest
    run of characters it can. *)
Lemma dot_plus_total_some {R} (s : string) (f : string -> R) :
  forall r,
    dot_plus s (fun x => Some (f x)) = Some r ->
    exists b s',
      s = b +++ s' /\ b <> EmptyString /\ dot_string b = true
      /\ dot_stops s' /\ r = f s'.
Proof.
  induction s as [|c s IH]; intros r; simpl; [discriminate|].
  destruct (is_line_terminator c) eqn:Ec; [discriminate|].
  destruct (dot_plus s (fun x => Some (f x))) as [r'|] eqn:E.
  - intros [= <-]. destruct (IH r' eq_refl) as (b & s' & -> & Hb & Hd & Hs & Hr).
    exists (String c b), s'. simpl. rewrite Ec, Hd.
    repeat split; [discriminate | exact Hs | exact Hr].
  - intros [= <-]. exists (String c EmptyString), s. simpl. rewrite Ec.
    repeat split; [discriminate|].
    now apply dot_plus_total_none in E.
Qed.

Lemma dot_plus_all {R} (s : string) (f : string -> R) :
  s <> EmptyString ->
  dot_string s = true ->
  dot_plus s (fun x => Some (f x)) = Some (f EmptyString).
Proof.
  induction s as [|c s IH]; intros Hne Hd; [contradiction|].
  simpl in *. apply andb_prop in Hd as [Hc Hs].
  apply negb_true_iff in Hc. rewrite Hc.
  destruct s as [|d s']; [reflexivity|].
  now rewrite IH.
Qed.

(** When the continuation fails after every shorter remainder, nothing
    is given back. *)
Lemma dot_plus_fail {R} (b : string) (k : string -> option R) :
  (forall x y, b = x +++ y -> x <> EmptyString -> k y = None) ->
  dot_plus b k = None.
Proof.
  induction b as [|c b IH]; intros H; simpl; [reflexivity|].
  destruct (is_line_terminator c); [reflexivity|].
  rewrite IH.
  - apply (H (String c EmptyString) b); [reflexivity | discriminate].
  - intros x y -> Hx. apply (H (String c x) y); [reflexivity | discriminate].
Qed.

Lemma dot_plus_backtrack {R} (a b : string) (k : string -> option R) (r : R) :
  a <> EmptyString ->
  dot_string a = true ->
  (forall x y, b = x +++ y -> x <> EmptyString -> k y = None) ->
  k b = Some r ->
  dot_plus (a +++ b) k = Some r.
Proof.
  intros Hne Hd Hfail Hk.
  induction a as [|c a IH]; [contradiction|].
  simpl in *. apply andb_prop in Hd as [Hc Ha].
  apply negb_true_iff in Hc. rewrite Hc.
  destruct a as [|d a'].
  - simpl. now rewrite (dot_plus_fail b k Hfail).
  - now rewrite IH.
Qed.

(** *** The pattern *)

Lemma match_at_pattern (s : string) :
  match_at REGEX_RUN_METADATA s [] (fun _ g => Some g) =
  match
    match strip_prefix "/threads/" s with
    | Some s1 =>
        dot_plus s1
          (fun s' =>
             run_part s'
               [("thread_id"%string,
                 take (String.length s1 - String.length s') s1)])
    | None => None
    end
  with
  | Some g => Some g
  | None => run_part s []
  end.
Proof. reflexivity. Qed.

Lemma run_part_sound (s : string) (g0 g : groups) :
  run_part s g0 = Some g ->
  exists rid post,
    s = "/runs/" +++ rid +++ post
    /\ rid <> EmptyString /\ dot_string rid = true /\ dot_stops post
    /\ g = ("run_id"%string, rid) :: g0.
Proof.
  unfold run_part.
  destruct (strip_prefix "/runs/" s) as [s2|] eqn:E; [|discriminate].
  apply strip_prefix_some in E. intros H.
  apply dot_plus_total_some in H as (b & s' & -> & Hb & Hd & Hs & ->).
  exists b, s'. rewrite take_append. now repeat split.
Qed.

Lemma run_part_complete (c : ascii) (rest : string) (g0 : groups) :
  is_line_terminator c = false ->
  run_part ("/runs/" +++ String c rest) g0 <> None.
Proof.
  intros Hc. unfold run_part. rewrite strip_prefix_append.
  intros H. apply dot_plus_total_none in H. simpl in H. congruence.
Qed.

(** What a match of the pattern at the start of [s] looks like. *)
Lemma pattern_sound (s : string) (g : groups) :
  match_at REGEX_RUN_METADATA s [] (fun _ g => Some g) = Some g ->
  exists rid post,
    rid <> EmptyString /\ dot_string rid = true /\ dot_stops post
    /\ ((s = "/runs/" +++ rid +++ post /\ g = [("run_id"%string, rid)])
        \/ exists t,
            t <> EmptyString /\ dot_string t = true
            /\ s = "/threads/" +++ t +++ "/runs/" +++ rid +++ post
            /\ g = [("run_id"%string, rid); ("thread_id"%string, t)]).
Proof.
  rewrite match_at_pattern.
  destruct (strip_prefix "/threads/" s) as [s1|] eqn:E1.
  - destruct (dot_plus s1 _) as [g1|] eqn:E2.
    + intros [= <-].
      apply dot_plus_sound in E2 as (t & s' & -> & Ht & Hd & Hk).
      apply run_part_sound in Hk as (rid & post & -> & Hr & Hdr & Hp & ->).
      apply strip_prefix_some in E1.
      exists rid, post. repeat split; try assumption.
      right. exists t. rewrite take_append. now repeat split.
    + intros H.
      apply run_part_sound in H as (rid & post & -> & Hr & Hdr & Hp & ->).
      exists rid, post. repeat split; try assumption. now left.
  - intros H.
    apply run_part_sound in H as (rid & post & -> & Hr & Hdr & Hp & ->).
    exists rid, post. repeat split; try assumption. now left.
Qed.

Lemma exec_sound (r : regex) (cl : string) (g : groups) :
  exec r cl = Some g ->
  exists pre s,
    cl = pre +++ s /\ match_at r s [] (fun _ g => Some g) = Some g.
Proof.
  induction cl as [|c cl IH]; simpl.
  - destruct (match_at r EmptyString [] _) as [g'|] eqn:E; [|discriminate].
    intros [= <-]. now exists EmptyString, EmptyString.
  - destruct (match_at r (String c cl) [] _) as [g'|] eqn:E.
    + intros [= <-]. now exists EmptyString, (String c cl).
    + intros H. destruct (IH H) as (pre & s & -> & Hm).
      now exists (String c pre), s.
Qed.

Lemma exec_complete (r : regex) (pre s : string) :
  match_at r s [] (fun _ g => Some g) <> None ->
  exec r (pre +++ s) <> None.
Proof.
  intros Hm. induction pre as [|c pre IH].
  - simpl. destruct s; simpl;
      destruct (match_at r _ [] _); congruence.
  - simpl. now destruct (match_at r (String c (pre +++ s)) [] _).
Qed.

Lemma append_nonempty (pre s : string) :
  s <> EmptyString -> falsy (pre +++ s) = false.
Proof.
  intros H. apply String.eqb_neq. destruct pre; [exact H | discriminate].
Qed.

Lemma falsy_nonempty (s : string) : s <> EmptyString -> falsy s = false.
Proof. apply String.eqb_neq. Qed.

(** The metadata, from a match of the pattern. *)
Lemma metadata_sound (cl : string) (m : RunMetadata) :
  getRunMetadataFromResponse (Some cl) = Some m ->
  exists pre post,
    cl = pre +++ "/runs/" +++ run_id m +++ post
    /\ run_id m <> EmptyString
    /\ dot_string (run_id m) = true
    /\ dot_stops post
    /\ match thread_id m with
       | Some t =>
           t <> EmptyString /\ dot_string t = true
           /\ exists pre', pre = pre' +++ "/threads/" +++ t
       | None => True
       end.
Proof.
  unfold getRunMetadataFromResponse.
  destruct (falsy cl); [discriminate|].
  destruct (exec REGEX_RUN_METADATA cl) as [g|] eqn:E; [|discriminate].
  apply exec_sound in E as (pre & s & -> & Hm).
  apply pattern_sound in Hm
    as (rid & post & Hr & Hd & Hp & [[-> ->] | (t & Ht & Hdt & -> & ->)]).
  - simpl lookup. cbv iota beta.
    rewrite (falsy_nonempty rid Hr). intros [= <-]. simpl.
    exists pre, post. now repeat split.
  - simpl lookup. cbv iota beta.
    rewrite (falsy_nonempty rid Hr). unfold or_undefined.
    rewrite (falsy_nonempty t Ht). intros [= <-]. simpl.
    exists (pre +++ "/threads/" +++ t), post.
    repeat split; try assumption.
    + now rewrite !append_assoc.
    + now exists pre.
Qed.

Lemma metadata_complete (cl : string) :
  has_run_segment cl -> getRunMetadataFromResponse (Some cl) <> None.
Proof.
  intros (pre & c & rest & -> & Hc).
  unfold getRunMetadataFromResponse.
  rewrite append_nonempty by discriminate.
  destruct (exec REGEX_RUN_METADATA (pre +++ "/runs/" +++ String c rest))
    as [g|] eqn:E.
  - apply exec_sound in E as (pre' & s & _ & Hm).
    apply pattern_sound in Hm
      as (rid & post & Hr & Hd & Hp & [[_ ->] | (t & Ht & Hdt & _ & ->)]).
    + simpl lookup. cbv iota beta. now rewrite (falsy_nonempty rid Hr).
    + simpl lookup. cbv iota beta. now rewrite (falsy_nonempty rid Hr).
  - exfalso. revert E. apply exec_complete.
    rewrite match_at_pattern.
    destruct (match strip_prefix "/threads/" _ with
              | Some _ => _ | None => _ end); [discriminate|].
    now apply run_part_complete.
Qed.

(** X13. Run metadata is extracted exactly when the header contains
    [/runs/] followed by a character other than a line terminator; the
    test of [run_id] after the match never rejects anything. *)
Theorem X13_metadata_iff_run_segment (cl : string) :
  getRunMetadataFromResponse (Some cl) <> None <-> has_run_segment cl.
Proof.
  split; [|apply metadata_complete].
  destruct (getRunMetadataFromResponse (Some cl)) as [m|] eqn:E;
    [intros _ | congruence].
  apply metadata_sound in E as (pre & post & -> & Hr & Hd & _ & _).
  destruct (run_id m) as [|c rid]; [contradiction|].
  exists pre, c, (rid +++ post). split; [reflexivity|].
  simpl in Hd. apply andb_prop in Hd as [Hc _].
  now apply negb_true_iff in Hc.
Qed.

(** X14. The run id returned is never empty, has no line terminator,
    stands in the header right after [/runs/] and goes on to the end of
    the header or to the next line terminator.  A thread id, when
    returned, is never empty either, has no line terminator and stands
    between [/threads/] and that [/runs/]. *)
Theorem X14_metadata_is_read_off_the_header
        (cl : string) (m : RunMetadata) :
  getRunMetadataFromResponse (Some cl) = Some m ->
  exists pre post,
    cl = pre +++ "/runs/" +++ run_id m +++ post
    /\ run_id m <> EmptyString
    /\ dot_string (run_id m) = true
    /\ dot_stops post
    /\ match thread_id m with
       | Some t =>
           t <> EmptyString /\ dot_string t = true
           /\ exists pre', pre = pre' +++ "/threads/" +++ t
       | None => True
       end.
Proof. apply metadata_sound. Qed.

Lemma count_slash_append (a b : string) :
  count_slash (a +++ b) = count_slash a + count_slash b.
Proof. induction a as [|x a IH]; simpl; [reflexivity|]. rewrite IH. lia. Qed.

Lemma no_slash_count (s : string) : no_slash s = true -> count_slash s = 0.
Proof.
  induction s as [|c s IH]; simpl; [reflexivity|].
  intros H. apply andb_prop in H as [Hc Hs].
  apply negb_true_iff in Hc. rewrite Hc. now rewrite IH.
Qed.

Lemma exec_here (r : regex) (s : string) (g : groups) :
  match_at r s [] (fun _ g => Some g) = Some g -> exec r s = Some g.
Proof. intros H. destruct s; simpl; now rewrite H. Qed.

Lemma run_part_whole (rid : string) (g0 : groups) :
  rid <> EmptyString ->
  dot_string rid = true ->
  run_part ("/runs/" +++ rid) g0 = Some (("run_id"%string, rid) :: g0).
Proof.
  intros Hr Hd. unfold run_part. rewrite strip_prefix_append.
  rewrite (dot_plus_all rid _ Hr Hd).
  pose proof (take_append rid EmptyString) as Ht.
  rewrite append_nil_r in Ht. now rewrite Ht.
Qed.

(** After a non-empty part of [/runs/R], with [R] free of slashes, no
    [/runs/] starts. *)
Lemma no_second_run_segment (rid x y : string) (g0 : groups) :
  no_slash rid = true ->
  "/runs/" +++ rid = x +++ y ->
  x <> EmptyString ->
  run_part y g0 = None.
Proof.
  intros Hns Hxy Hx. unfold run_part.
  destruct (strip_prefix "/runs/" y) as [z|] eqn:E; [|reflexivity].
  exfalso. apply strip_prefix_some in E. subst y.
  assert (Hc : count_slash ("/runs/" +++ rid)
               = count_slash (x +++ "/runs/" +++ z)) by now rewrite Hxy.
  rewrite !count_slash_append in Hc.
  rewrite (no_slash_count rid Hns) in Hc.
  destruct x as [|c x]; [contradiction|].
  simpl in Hxy. injection Hxy as <- _. simpl in Hc. lia.
Qed.

(** X15. For a header that is exactly [/runs/R], the run id is all of
    [R], slashes included, and there is no thread id.  For a header that
    is exactly [/threads/T/runs/R] with [R] free of slashes, the thread
    id is [T] and the run id is [R].  [T] and [R] are non-empty and free
    of line terminators. *)
Theorem X15_metadata_of_plain_paths (t rid : string) :
  rid <> EmptyString ->
  dot_string rid = true ->
  getRunMetadataFromResponse (Some ("/runs/" +++ rid))
  = Some {| run_id := rid; thread_id := None |}
  /\ (t <> EmptyString ->
      dot_string t = true ->
      no_slash rid = true ->
      getRunMetadataFromResponse
        (Some ("/threads/" +++ t +++ "/runs/" +++ rid))
      = Some {| run_id := rid; thread_id := Some t |}).
Proof.
  intros Hr Hd. split.
  - unfold getRunMetadataFromResponse.
    rewrite (falsy_nonempty ("/runs/" +++ rid)) by discriminate.
    rewrite (exec_here _ _ [("run_id"%string, rid)]).
    + simpl lookup. cbv iota beta. now rewrite (falsy_nonempty rid Hr).
    + rewrite match_at_pattern.
      change (strip_prefix "/threads/" ("/runs/" +++ rid)) with (@None string).
      cbv iota. now apply run_part_whole.
  - intros Ht Hdt Hns. unfold getRunMetadataFromResponse.
    rewrite (falsy_nonempty ("/threads/" +++ t +++ "/runs/" +++ rid))
      by discriminate.
    rewrite (exec_here _ _ [("run_id"%string, rid); ("thread_id"%string, t)]).
    + simpl lookup. cbv iota beta. rewrite (falsy_nonempty rid Hr).
      unfold or_undefined. now rewrite (falsy_nonempty t Ht).
    + rewrite match_at_pattern, strip_prefix_append.
      rewrite (dot_plus_backtrack t ("/runs/" +++ rid) _
                 [("run_id"%string, rid); ("thread_id"%string, t)]);
        [reflexivity | exact Ht | exact Hdt | |].
      * intros x y Hxy Hx. now apply (no_second_run_segment rid x y).
      * rewrite take_append. now apply run_part_whole.
Qed.

End RegexExtras.

(** ** The grouping of an assistant turn *)

Module TurnExtras.
Import AssistantTurn.
Section WithMessage.
Variable Message : Type.
Variable ToolCall : Type.
Variable type : Message -> string.
Variable tool_calls : Message -> option (list ToolCall).

#[local] Notation "'group'" :=
  (AssistantTurn.group Message ToolCall type tool_calls).
#[local] Notation "'view_of'" :=
  (AssistantTurn.AssistantTurn Message ToolCall type tool_calls).
#[local] Notation "'is_tool'" :=
  (isLastMessageTool Message ToolCall type tool_calls).

Lemma last_cons (m : Message) (rest : list Message) (d : Message) :
  last (m :: rest) d = last rest m.
Proof.
  revert m d. induction rest as [|x rest IH]; intros m d; [reflexivity|].
  change (last (m :: x :: rest) d) with (last (x :: rest) d).
  now rewrite !IH.
Qed.

Lemma removelast_lastMessage (messages : list Message) (lastMsg : Message) :
  lastMessage Message messages = Some lastMsg ->
  removelast messages ++ [lastMsg] = messages.
Proof.
  destruct messages as [|m rest]; [discriminate|].
  intros [= <-]. rewrite <- (last_cons m rest m).
  symmetry. apply app_removelast_last. discriminate.
Qed.

(** X16. With no message the component fails on reading [type] of
    [undefined].  Otherwise every message lands in exactly one of the
    two groups, order kept: the thinking messages followed by the final
    messages are the messages of the turn.  There is at most one final
    message, the last one, and only when the turn is not loading and
    does not end with a tool message.  [isThinkingLoading] always equals
    [isLoading]. *)
Theorem X16_turn_is_split_in_two
        (messages : list Message) (isLoading : bool) :
  (messages = [] -> group messages isLoading = None)
  /\ (messages <> [] ->
      exists g lastMsg,
        group messages isLoading = Some g
        /\ lastMessage Message messages = Some lastMsg
        /\ thinkingMessages Message g ++ finalMessages Message g = messages
        /\ finalMessages Message g
           = (if isLoading || is_tool lastMsg then [] else [lastMsg])
        /\ isThinkingLoading Message g = isLoading).
Proof.
  split.
  - now intros ->.
  - intros Hne. unfold AssistantTurn.group.
    destruct (lastMessage Message messages) as [lastMsg|] eqn:El;
      [|destruct messages; [contradiction | discriminate]].
    pose proof (removelast_lastMessage messages lastMsg El) as Hsplit.
    destruct (is_tool lastMsg) eqn:Et; [|destruct isLoading].
    + eexists. exists lastMsg. split; [reflexivity|]. simpl.
      rewrite Et, app_nil_r, orb_true_r. now repeat split.
    + eexists. exists lastMsg. split; [reflexivity|]. simpl.
      rewrite app_nil_r. now repeat split.
    + eexists. exists lastMsg. split; [reflexivity|]. simpl.
      rewrite Et. now repeat split.
Qed.

(** X17. In what is rendered, no final message is ever shown as loading,
    the thinking box carries [isLoading] as its loading state, and the
    box is left out exactly when the turn is one message that is not a
    tool message and the turn is not loading. *)
Theorem X17_rendered_turn
        (messages : list Message) (isLoading : bool) (v : view Message) :
  view_of messages isLoading = Some v ->
  Forall (fun mf => snd mf = false) (finals Message v)
  /\ (forall b ms, thinkingBox Message v = Some (b, ms) -> b = isLoading)
  /\ (thinkingBox Message v = None <->
      isLoading = false
      /\ exists m, messages = [m] /\ is_tool m = false).
Proof.
  unfold AssistantTurn.AssistantTurn, AssistantTurn.group.
  destruct messages as [|m0 rest]; [discriminate|].
  set (messages := m0 :: rest).
  assert (El : lastMessage Message messages = Some (last rest m0))
    by reflexivity.
  rewrite El. set (lastMsg := last rest m0) in *.
  pose proof (removelast_lastMessage messages lastMsg El) as Hsplit.
  destruct (is_tool lastMsg) eqn:Et; [|destruct isLoading].
  - intros [= <-]. unfold render. simpl.
    split; [constructor|]. split.
    + intros b ms H. now injection H.
    + split; [discriminate|].
      intros [_ (m & Hm & Ht)]. exfalso.
      unfold messages in Hm. injection Hm as Hm0 Hrest.
      unfold lastMsg in Et. rewrite Hrest in Et. simpl in Et.
      congruence.
  - intros [= <-]. unfold render. simpl.
    split; [constructor|]. split.
    + intros b ms H. now injection H.
    + split; [discriminate|]. intros [H _]. discriminate H.
  - intros [= <-]. unfold render. simpl finals. simpl thinkingBox.
    split; [repeat constructor|].
    destruct rest as [|m1 rest']; simpl.
    + split; [discriminate|]. split; [|reflexivity].
      intros _. split; [reflexivity|].
      exists m0. split; [reflexivity | exact Et].
    + split; [intros b ms H; now injection H|].
      split; [discriminate|].
      intros [_ (m & Hm & _)]. unfold messages in Hm. discriminate Hm.
Qed.

End WithMessage.
End TurnExtras.

(** ** The duration label *)

Section DurationExtras.
Variable toFixed1 : Z -> string.


End DurationExtras.

(** ** The further properties on concrete inputs *)

Section ExtraExamples.
Import Reference.

Lemma X3_witness :
  BytesLineDecoder.buffer
    (fst (BytesLineDecoder.feed BytesLineDecoder.start
            [bytes "ab"; [x63; CR]; [LF]])) = [].
Proof.
  apply (proj1 (proj2 (LineExtras.X3_buffer_invariant
                         [bytes "ab"; [x63; CR]; [LF]]))).
  reflexivity.
Defined.

Lemma X4_witness :
  BytesLineDecoder.run [[x61; CR]; [LF; LF; x62]; [x63; LF]]
  = [[x61]; []; [x62; x63]].
Proof.
  apply (LineExtras.X4_round_trip
           [([x61], true); ([], false); ([x62; x63], false)]
           [[x61; CR]; [LF; LF; x62]; [x63; LF]]).
  - repeat constructor; simpl; intuition discriminate.
  - reflexivity.
Defined.

Lemma X5_witness :
  BytesLineDecoder.run [[x61; x62]; []; [x63]] = [[x61; x62; x63]].
Proof.
  apply (LineExtras.X5_no_terminator_no_line [[x61; x62]; []; [x63]]).
  repeat constructor; simpl; intuition discriminate.
Defined.

Lemma X6_witness :
  SafeSSEDecoder.transform malformed (bytes ": keep-alive") = (malformed, [])
  /\ SafeSSEDecoder.transform malformed (bytes "noise") = (malformed, [])
  /\ SafeSSEDecoder.transform malformed (bytes "Data: 1") = (malformed, []).
Proof.
  split; [|split].
  - apply (SSEExtras.X6_ignored_lines
             (P := platform) malformed (bytes ": keep-alive"));
      [discriminate | left; reflexivity].
  - apply (SSEExtras.X6_ignored_lines
             (P := platform) malformed (bytes "noise"));
      [discriminate | right; left; simpl; intuition discriminate].
  - apply (SSEExtras.X6_ignored_lines
             (P := platform) malformed (bytes "Data: 1"));
      [discriminate | right; right].
    exists "Data"%string, (bytes "1").
    split; [reflexivity | repeat split; discriminate].
Defined.

Lemma X7_witness :
  SafeSSEDecoder.parse_field (bytes "data:  x") = Some ("data"%string, bytes " x").
Proof.
  apply (proj1 (SSEExtras.X7_field_line_round_trip
                  (P := platform) (bytes "data") (bytes " x")
                  ltac:(discriminate)
                  ltac:(simpl; intuition discriminate))).
Defined.

Lemma X9_witness :
  SafeSSEDecoder.feed SafeSSEDecoder.initial [bytes "retry: 100"; []]
  = (SafeSSEDecoder.initial, [ref_event None EmptyString Jnull]).
Proof.
  apply (proj2 (SSEExtras.X9_retry_line
                  (P := platform) SafeSSEDecoder.initial
                  (bytes "retry: 100") (bytes "100") eq_refl)
               100%Z eq_refl).
Defined.


Lemma X12_witness :
  Driver.decoded
    (Driver.mkResponse None
       (Some [bytes "event: a" ++ [CR];
              [LF] ++ bytes "data: 1" ++ [CR; LF; CR; LF] ++ bytes "event: b";
              [CR; LF] ++ bytes "data: true" ++ [CR; LF; CR; LF]]))
  = [ref_event None "a" (Jnumber 1); ref_event None "b" (Jbool true)].
Proof.
  apply (X12_event_stream_round_trip
           (P := platform)
           [(bytes "a", bytes "1", Jnumber 1);
            (bytes "b", bytes "true", Jbool true)] true None).
  - reflexivity.
  - reflexivity.
  - repeat constructor; simpl; intuition discriminate.
  - reflexivity.
Defined.

Lemma X13_witness : has_run_segment "http://host/api/runs/xyz".
Proof.
  apply (proj1 (RegexExtras.X13_metadata_iff_run_segment
                  "http://host/api/runs/xyz")).
  vm_compute. discriminate.
Defined.

Lemma X14_witness :
  exists pre post,
    "/threads/abc/runs/xyz"%string
    = String.append pre (String.append "/runs/" (String.append "xyz" post))
    /\ "xyz"%string <> EmptyString
    /\ dot_string "xyz" = true
    /\ dot_stops post
    /\ ("abc"%string <> EmptyString /\ dot_string "abc" = true
        /\ exists pre',
            pre = String.append pre' (String.append "/threads/" "abc")).
Proof.
  apply (RegexExtras.X14_metadata_is_read_off_the_header
           "/threads/abc/runs/xyz"
           {| run_id := "xyz"; thread_id := Some "abc"%string |}).
  reflexivity.
Defined.

Lemma X15_witness :
  getRunMetadataFromResponse (Some "/threads/t/1/runs/r-1"%string)
  = Some {| run_id := "r-1"; thread_id := Some "t/1"%string |}.
Proof.
  apply (proj2 (RegexExtras.X15_metadata_of_plain_paths
                  "t/1" "r-1" ltac:(discriminate) eq_refl));
    [discriminate | reflexivity | reflexivity].
Defined.

Lemma X16_witness :
  exists g lastMsg,
    AssistantTurn.group example_message string example_type
      example_tool_calls
      [mkMessage "ai" (Some ["search"%string]); mkMessage "tool" None;
       mkMessage "ai" (Some [])] false = Some g
    /\ AssistantTurn.lastMessage example_message
         [mkMessage "ai" (Some ["search"%string]); mkMessage "tool" None;
          mkMessage "ai" (Some [])] = Some lastMsg
    /\ AssistantTurn.thinkingMessages example_message g
       ++ AssistantTurn.finalMessages example_message g
       = [mkMessage "ai" (Some ["search"%string]); mkMessage "tool" None;
          mkMessage "ai" (Some [])]
    /\ AssistantTurn.finalMessages example_message g
       = (if false
             || AssistantTurn.isLastMessageTool example_message string
                  example_type example_tool_calls lastMsg
          then [] else [lastMsg])
    /\ AssistantTurn.isThinkingLoading example_message g = false.
Proof.
  apply (proj2 (TurnExtras.X16_turn_is_split_in_two
                  example_message string example_type example_tool_calls
                  [mkMessage "ai" (Some ["search"%string]);
                   mkMessage "tool" None; mkMessage "ai" (Some [])] false)).
  discriminate.
Defined.

Lemma X17_witness :
  AssistantTurn.thinkingBox example_message
    {| AssistantTurn.thinkingBox := None;
       AssistantTurn.finals := [(mkMessage "ai" None, false)] |} = None
  <-> false = false
      /\ exists m,
          [mkMessage "ai" None] = [m]
          /\ AssistantTurn.isLastMessageTool example_message string
               example_type example_tool_calls m = false.
Proof.
  apply (TurnExtras.X17_rendered_turn
           example_message string example_type example_tool_calls
           [mkMessage "ai" None] false
           {| AssistantTurn.thinkingBox := None;
              AssistantTurn.finals := [(mkMessage "ai" None, false)] |}).
  reflexivity.
Defined.


(** The label of 125999 milliseconds. *)
Example duration_of_two_minutes :
  Thinking.formatDuration (fun _ => EmptyString) 125999 = "2m 5s"%string.
Proof. reflexivity. Qed.

End ExtraExamples.
